(** * GeoMapCam: capture, permission and gallery workflows

    A shallow embedding of the three TypeScript modules of the application
    (PermissionHandler, GeoCamera, GeoMapView) and the properties of the
    capture-and-retrieval workflow.

    The handlers of the application are [async] functions over React state.
    They are embedded as finite resumptions ([Prog]): a tree of synchronous
    operations (state setters, console output, clock reads) and of
    suspension points (one per [await]).  A resumption is executed against
    an explicit world (the component state, the hook values, the photo
    library, the log) and an environment that answers the platform calls. *)

Set Warnings "-inexact-float".
From Stdlib Require Import ZArith List String Bool Lia.
From Stdlib Require Import Floats.SpecFloat Floats.PrimFloat Floats.FloatOps.
Import ListNotations.
Open Scope string_scope.

(* ===================================================================== *)
(** ** JavaScript values used by the application *)
(* ===================================================================== *)

Module JS.

(** A JS [number] is an IEEE 754 binary64 value. *)
Definition number : Type := spec_float.

(** The literal [0]. *)
Definition zero : number := S754_zero false.

(** Decimal literals of the source, as the binary64 value the literal
    denotes. *)
Definition lit (f : PrimFloat.float) : number := Prim2SF f.

(** [ToBoolean] on a number: [+0], [-0] and [NaN] are falsy. *)
Definition truthy (x : number) : bool :=
  match x with
  | S754_zero _ | S754_nan => false
  | S754_infinity _ | S754_finite _ _ _ => true
  end.

(** [x === y] and [x !== y] on numbers. *)
Definition strict_eq (x y : number) : bool := SFeqb x y.
Definition strict_neq (x y : number) : bool := negb (SFeqb x y).

(** [x < y] on numbers. *)
Definition lt (x y : number) : bool := SFltb x y.

(** [x || d] where [x] is a possibly [undefined] number. *)
Definition or_default (x : option number) (d : number) : number :=
  match x with
  | Some v => if truthy v then v else d
  | None => d
  end.

(** [!s] on a string: only the empty string is falsy. *)
Definition str_falsy (s : string) : bool :=
  match s with
  | EmptyString => true
  | String _ _ => false
  end.

(** [Platform.OS] *)
Inductive PlatformOS : Type := android | ios | macos | windows | web.

(** A thrown value: [new Error(message)]. *)
Inductive Error : Type := MkError (message : string).

(** The state in which an awaited promise settles. *)
Inductive Settled (A : Type) : Type :=
| Fulfilled (a : A)
| Rejected (e : Error).
Arguments Fulfilled {A} a.
Arguments Rejected {A} e.

End JS.
Import JS.

(* ===================================================================== *)
(** ** Resumptions: the embedding of [async] functions *)
(* ===================================================================== *)

Module Async.

Section Prog.
(** [Op R]: synchronous operations answering in [R];
    [Call R]: platform calls the function suspends on, answering in [R]. *)
Variables Op Call : Type -> Type.

Inductive Prog (A : Type) : Type :=
| Ret (a : A)
| Throw (e : Error)
| Do (R : Type) (o : Op R) (k : R -> Prog A)
| Await (R : Type) (c : Call R) (k : R -> Prog A).

Arguments Ret {A} a.
Arguments Throw {A} e.
Arguments Do {A R} o k.
Arguments Await {A R} c k.

Fixpoint bind {A B : Type} (p : Prog A) (f : A -> Prog B) : Prog B :=
  match p with
  | Ret a => f a
  | Throw e => Throw e
  | Do o k => Do o (fun r => bind (k r) f)
  | Await c k => Await c (fun r => bind (k r) f)
  end.

(** [try { p } catch (e) { h e }] *)
Fixpoint try_catch {A : Type} (p : Prog A) (h : Error -> Prog A) : Prog A :=
  match p with
  | Ret a => Ret a
  | Throw e => h e
  | Do o k => Do o (fun r => try_catch (k r) h)
  | Await c k => Await c (fun r => try_catch (k r) h)
  end.

(** [try { p } finally { f }]: [f] runs on both exits; an error thrown by
    [f] replaces the completion of [p]. *)
Fixpoint finally {A : Type} (p : Prog A) (f : Prog unit) : Prog A :=
  match p with
  | Ret a => bind f (fun _ => Ret a)
  | Throw e => bind f (fun _ => Throw e)
  | Do o k => Do o (fun r => finally (k r) f)
  | Await c k => Await c (fun r => finally (k r) f)
  end.

(** One synchronous operation, and one [await] of a promise. *)
Definition perform {R : Type} (o : Op R) : Prog R := Do o (fun r => Ret r).
Definition await {R : Type} (c : Call (Settled R)) : Prog R :=
  Await c (fun r => match r with
                    | Fulfilled a => Ret a
                    | Rejected e => Throw e
                    end).

(** [xs.map(f)] for a callback with effects, left to right. *)
Fixpoint mapM {A B : Type} (f : A -> Prog B) (xs : list A) : Prog (list B) :=
  match xs with
  | [] => Ret []
  | x :: xs' => bind (f x) (fun y => bind (mapM f xs') (fun ys => Ret (y :: ys)))
  end.

(** *** Execution *)
Section Exec.
Variable World : Type.
(** How the world performs an operation and answers a call. *)
Variable do_op : forall R : Type, Op R -> World -> World * R.
Variable answer : forall R : Type, Call R -> World -> World * R.

(** The function runs to completion, every call answered in turn. *)
Fixpoint run {A : Type} (p : Prog A) (w : World) : World * Settled A :=
  match p with
  | Ret a => (w, Fulfilled a)
  | Throw e => (w, Rejected e)
  | Do o k => let '(w', r) := do_op _ o w in run (k r) w'
  | Await c k => let '(w', r) := answer _ c w in run (k r) w'
  end.

(** A function stopped at a suspension point, or settled. *)
Inductive Paused (A : Type) : Type :=
| Settle (r : Settled A)
| Suspended (R : Type) (c : Call R) (k : R -> Prog A).

(** The synchronous segment up to the next [await]. *)
Fixpoint advance {A : Type} (p : Prog A) (w : World) : World * Paused A :=
  match p with
  | Ret a => (w, Settle A (Fulfilled a))
  | Throw e => (w, Settle A (Rejected e))
  | Do o k => let '(w', r) := do_op _ o w in advance (k r) w'
  | Await c k => (w, Suspended A _ c k)
  end.
End Exec.
End Prog.

Arguments Ret {Op Call A} a.
Arguments Throw {Op Call A} e.
Arguments Do {Op Call A R} o k.
Arguments Await {Op Call A R} c k.
Arguments bind {Op Call A B} p & f.
Arguments try_catch {Op Call A} p h.
Arguments finally {Op Call A} p f.
Arguments perform {Op Call R} o.
Arguments await {Op Call R} c.
Arguments mapM {Op Call A B} f xs.
Arguments run {Op Call World} do_op answer {A} p w.
Arguments advance {Op Call World} do_op {A} p w.
Arguments Settle {Op Call A} r.
Arguments Suspended {Op Call A R} c k.

Declare Scope prog_scope.
Delimit Scope prog_scope with prog.
Notation "x <- p ;; q" := (bind p (fun x => q))
  (at level 61, p at next level, right associativity) : prog_scope.
Notation "p ;; q" := (bind p (fun _ => q))
  (at level 61, right associativity) : prog_scope.

End Async.
Import Async.
Open Scope prog_scope.

(* ===================================================================== *)
(** ** PermissionHandler: the [usePermissions] hook *)
(* ===================================================================== *)

Module PermissionHandler.

(** The four permissions of [PERMISSIONS] the hook names. *)
Inductive Permission : Type :=
| ANDROID_CAMERA
| IOS_CAMERA
| ANDROID_ACCESS_FINE_LOCATION
| IOS_LOCATION_WHEN_IN_USE.

(** [RESULTS] *)
Inductive PermissionStatus : Type :=
| UNAVAILABLE | BLOCKED | DENIED | GRANTED | LIMITED.

(** [status === RESULTS.GRANTED] *)
Definition is_granted (s : PermissionStatus) : bool :=
  match s with
  | GRANTED => true
  | _ => false
  end.

Inductive Op : Type -> Type :=
| Platform_OS : Op PlatformOS
| setPermissionsGranted (b : bool) : Op unit
| console_error (msg : string) (detail : option Error) : Op unit
| Alert_alert (title message : string) (buttons : list string) : Op unit.

Inductive Call : Type -> Type :=
| check (p : Permission) : Call (Settled PermissionStatus)
| request (p : Permission) : Call (Settled PermissionStatus).

(** [Platform.select({android, ios, default})] *)
Definition Platform_select {A : Type} (android_ ios_ default_ : A) : Prog Op Call A :=
  os <- perform Platform_OS ;;
  Ret (match os with
       | android => android_
       | ios => ios_
       | _ => default_
       end).

(** Lines 695-726: the statuses are checked, what is not granted is
    requested, and the result is stored and returned. *)
Definition checkAndRequest (cameraPermission locationPermission : Permission)
  : Prog Op Call bool :=
  cameraStatus <- await (check cameraPermission) ;;
  locationStatus <- await (check locationPermission) ;;
  finalCameraStatus <-
    (if negb (is_granted cameraStatus)
     then await (request cameraPermission)
     else Ret cameraStatus) ;;
  finalLocationStatus <-
    (if negb (is_granted locationStatus)
     then await (request locationPermission)
     else Ret locationStatus) ;;
  let allGranted :=
    is_granted finalCameraStatus && is_granted finalLocationStatus in
  perform (setPermissionsGranted allGranted) ;;
  (if negb allGranted
   then perform (Alert_alert "Permissions Required"
          "Camera and location permissions are required to use all features of this app."
          ["OK"])
   else Ret tt) ;;
  Ret allGranted.

(** Line 727: the [catch] of [requestPermissions]. *)
Definition onError (error : Error) : Prog Op Call bool :=
  perform (console_error "Error requesting permissions:" (Some error)) ;;
  Ret false.

Definition requestPermissions : Prog Op Call bool :=
  try_catch
    (cameraPermission <- Platform_select (Some ANDROID_CAMERA) (Some IOS_CAMERA) None ;;
     locationPermission <- Platform_select (Some ANDROID_ACCESS_FINE_LOCATION)
                                           (Some IOS_LOCATION_WHEN_IN_USE) None ;;
     match cameraPermission, locationPermission with
     | Some cameraPermission, Some locationPermission =>
         checkAndRequest cameraPermission locationPermission
     | _, _ =>
         perform (console_error "Permissions not defined for this platform" None) ;;
         Ret false
     end)
    onError.

(** *** The world of the hook *)

Inductive Event : Type :=
| Checked (p : Permission)
| Requested (p : Permission)
| Logged (msg : string) (detail : option Error)
| Alerted (title message : string).

(** [permissionsGranted] is the hook's [useState]; [log] records, oldest
    first, the platform calls issued and what was shown or logged. *)
Record World : Type := mkWorld {
  permissionsGranted : bool;
  log : list Event
}.

(** What the platform answers during one invocation. *)
Record Env : Type := mkEnv {
  OS : PlatformOS;
  check_result : Permission -> Settled PermissionStatus;
  request_result : Permission -> Settled PermissionStatus
}.

Definition emit (e : Event) (w : World) : World :=
  mkWorld (permissionsGranted w) (log w ++ [e]).

Definition do_op (env : Env) (R : Type) (o : Op R) (w : World) : World * R :=
  match o in Op R return World * R with
  | Platform_OS => (w, OS env)
  | setPermissionsGranted b => (mkWorld b (log w), tt)
  | console_error msg detail => (emit (Logged msg detail) w, tt)
  | Alert_alert title message _ => (emit (Alerted title message) w, tt)
  end.

Definition answer (env : Env) (R : Type) (c : Call R) (w : World) : World * R :=
  match c in Call R return World * R with
  | check p => (emit (Checked p) w, check_result env p)
  | request p => (emit (Requested p) w, request_result env p)
  end.

Definition exec {A : Type} (env : Env) (p : Prog Op Call A) (w : World)
  : World * Settled A :=
  run (do_op env) (answer env) p w.

(** The initial value of the hook's state. *)
Definition initial : World := mkWorld false [].

(** The camera and the location permission of a platform (lines 678-693). *)
Definition permissions_of (os : PlatformOS) : option (Permission * Permission) :=
  match os with
  | android => Some (ANDROID_CAMERA, ANDROID_ACCESS_FINE_LOCATION)
  | ios => Some (IOS_CAMERA, IOS_LOCATION_WHEN_IN_USE)
  | _ => None
  end.

(** The status one capability ends up with in an invocation (lines
    696-709): the checked status when it is granted, otherwise the answer
    to the request; none when the platform call fails. *)
Definition final_status (env : Env) (p : Permission) : option PermissionStatus :=
  match check_result env p with
  | Fulfilled s =>
      if is_granted s then Some s
      else match request_result env p with
           | Fulfilled s' => Some s'
           | Rejected _ => None
           end
  | Rejected _ => None
  end.

(** *** Notions used in the statements *)

(** The events one invocation adds to the log. *)
Definition trace (env : Env) : list Event :=
  log (fst (exec env requestPermissions initial)).

(** The notice shown when not everything is granted. *)
Definition notice : Event :=
  Alerted "Permissions Required"
    "Camera and location permissions are required to use all features of this app.".

(** Both capabilities end up granted. *)
Definition all_granted (env : Env) : bool :=
  match permissions_of (OS env) with
  | Some (cam, loc) =>
      match final_status env cam, final_status env loc with
      | Some c, Some l => is_granted c && is_granted l
      | _, _ => false
      end
  | None => false
  end.

Definition location_denied : Env :=
  mkEnv android
    (fun p => match p with
              | ANDROID_CAMERA => Fulfilled GRANTED
              | _ => Fulfilled DENIED
              end)
    (fun _ => Fulfilled DENIED).

(** *** Further notions: the answers of a platform *)

(** The error of the first call that rejects in an invocation on a
    platform with permissions [cam] and [loc] (the calls are issued in the
    order of lines 696-709). *)
Definition first_rejection (env : Env) (cam loc : Permission) : option Error :=
  match check_result env cam with
  | Rejected e => Some e
  | Fulfilled sc =>
      match check_result env loc with
      | Rejected e => Some e
      | Fulfilled sl =>
          match (if is_granted sc then Fulfilled sc else request_result env cam) with
          | Rejected e => Some e
          | Fulfilled _ =>
              match (if is_granted sl then Fulfilled sl else request_result env loc) with
              | Rejected e => Some e
              | Fulfilled _ => None
              end
          end
      end
  end.

(** A phone on which the location check fails. *)
Definition location_check_fails : Env :=
  mkEnv ios
    (fun p => match p with
              | IOS_CAMERA => Fulfilled GRANTED
              | _ => Rejected (MkError "E_CHECK")
              end)
    (fun _ => Fulfilled GRANTED).

(** A phone on which everything is granted already. *)
Definition all_set : Env :=
  mkEnv android (fun _ => Fulfilled GRANTED) (fun _ => Fulfilled BLOCKED).

(** A phone on which nothing is granted and both prompts are refused. *)
Definition both_refused : Env :=
  mkEnv android (fun _ => Fulfilled DENIED) (fun _ => Fulfilled BLOCKED).

(** A desktop build. *)
Definition desktop : Env :=
  mkEnv windows (fun _ => Fulfilled GRANTED) (fun _ => Fulfilled GRANTED).

End PermissionHandler.

(* ===================================================================== *)
(** ** GeoCamera: the capture screen *)
(* ===================================================================== *)

Module GeoCamera.

Record LocationData : Type := mkLocationData {
  latitude : number;
  longitude : number;
  timestamp : number;
  date : string
}.

Record CapturedImageData : Type := mkCapturedImageData {
  uri : string;
  location : LocationData
}.

Inductive CameraPosition : Type := front | back.

(** What [Geolocation.getCurrentPosition] hands to its callbacks. *)
Record GeoPosition : Type := mkGeoPosition {
  coords_latitude : number;
  coords_longitude : number;
  position_timestamp : number
}.

Inductive GeoErrorCode : Type :=
| PERMISSION_DENIED | POSITION_UNAVAILABLE | TIMEOUT
| PLAY_SERVICE_NOT_AVAILABLE | SETTINGS_NOT_SATISFIED | INTERNAL_ERROR.

Record GeoError : Type := mkGeoError {
  code : GeoErrorCode;
  message : string
}.

(** Exactly one of the two callbacks is invoked. *)
Inductive GeoResult : Type :=
| Position (position : GeoPosition)
| Failure (error : GeoError).

(** Durations are whole milliseconds. *)
Record GeoOptions : Type := mkGeoOptions {
  enableHighAccuracy : bool;
  timeout : Z;
  maximumAge : Z
}.

Record TakePhotoOptions : Type := mkTakePhotoOptions {
  flash : string;
  qualityPrioritization : string
}.

Record SaveOptions : Type := mkSaveOptions {
  type : string;
  album : string
}.

(** The [PhotoFile] of the camera; the screen reads its [path] only. *)
Record PhotoFile : Type := mkPhotoFile {
  path : string
}.

(** The second argument of a [console.error]. *)
Inductive Detail : Type :=
| OfError (e : Error)
| OfGeoError (e : GeoError).

Inductive Op : Type -> Type :=
| setCapturedImage (v : option CapturedImageData) : Op unit
| setLocation (v : option LocationData) : Op unit
| setIsCapturing (v : bool) : Op unit
| setCameraPosition (f : CameraPosition -> CameraPosition) : Op unit
| setCameraError (v : option string) : Op unit
| cameraRef_current : Op bool
| Platform_OS : Op PlatformOS
| Date_now : Op number
| Date_toLocaleString (t : number) : Op string
| console_error (msg : string) (detail : Detail) : Op unit.

Inductive Call : Type -> Type :=
| requestPermission : Call (Settled bool)
| Geolocation_getCurrentPosition (options : GeoOptions) : Call GeoResult
| Camera_takePhoto (options : TakePhotoOptions) : Call (Settled (option PhotoFile))
| CameraRoll_save (tag : string) (options : SaveOptions) : Call (Settled string).

Abbreviation Task := (Prog Op Call).

(** The promise of [getCurrentLocation] resolves in both callbacks. *)
Definition getCurrentLocation : Task LocationData :=
  Await (Geolocation_getCurrentPosition (mkGeoOptions true 15000 10000))
    (fun r =>
       match r with
       | Position position =>
           let latitude := coords_latitude position in
           let longitude := coords_longitude position in
           let timestamp := position_timestamp position in
           date <- perform (Date_toLocaleString timestamp) ;;
           Ret (mkLocationData latitude longitude timestamp date)
       | Failure error =>
           perform (console_error "Error getting location:" (OfGeoError error)) ;;
           now <- perform Date_now ;;
           today <- perform Date_now ;;
           date <- perform (Date_toLocaleString today) ;;
           Ret (mkLocationData zero zero now date)
       end).

(** The module's own [alert] (declared after the component, hoisted). *)
Definition alert (arg0 : string) : Task unit :=
  Throw (MkError "Function not implemented.").

(** [cameraRef.current.takePhoto(...)]: a null reference is a [TypeError]. *)
Definition cameraRef_takePhoto (options : TakePhotoOptions) : Task (option PhotoFile) :=
  camera <- perform cameraRef_current ;;
  if camera then await (Camera_takePhoto options)
  else Throw (MkError "TypeError: Cannot read property 'takePhoto' of null").

(** Line 412: [Platform.OS === 'android' ? `file://${photo.path}` : photo.path] *)
Definition filePath_of (os : PlatformOS) (photo : PhotoFile) : string :=
  match os with
  | android => "file://" ++ path photo
  | _ => path photo
  end.

(** Lines 397-435: the [try]/[catch]/[finally] of [takePhoto]. *)
Definition takePhoto_attempt : Task unit :=
  finally
    (try_catch
       (locationData <- getCurrentLocation ;;
        perform (setLocation (Some locationData)) ;;
        photo <- cameraRef_takePhoto (mkTakePhotoOptions "off" "quality") ;;
        match photo with
        | None => Throw (MkError "Failed to capture photo")
        | Some photo =>
            if str_falsy (path photo) then Throw (MkError "Failed to capture photo")
            else
              os <- perform Platform_OS ;;
              let filePath := filePath_of os photo in
              try_catch
                (await (CameraRoll_save filePath (mkSaveOptions "photo" "GeoMapCamera")) ;;
                 Ret tt)
                (fun saveError =>
                   perform (console_error "Error saving to camera roll:" (OfError saveError))) ;;
              perform (setCapturedImage (Some (mkCapturedImageData filePath locationData)))
        end)
       (fun error =>
          perform (console_error "Error taking photo:" (OfError error)) ;;
          perform (setCameraError (Some "Failed to take photo. Please try again.")) ;;
          alert "Failed to take photo. Please try again."))
    (perform (setIsCapturing false)).

(** Lines 389-396: the guard, then the attempt. *)
Definition takePhoto_guarded (isCapturing : bool) : Task unit :=
  camera <- perform cameraRef_current ;;
  if negb camera || isCapturing then Ret tt
  else
    perform (setCameraError None) ;;
    perform (setIsCapturing true) ;;
    takePhoto_attempt.

(** [takePhoto] closes over the [hasPermission] and [isCapturing] of the
    render that created it. *)
Definition takePhoto (hasPermission isCapturing : bool) : Task unit :=
  if negb hasPermission then
    granted <- await requestPermission ;;
    if negb granted then alert "Camera permission is required to take photos"
    else takePhoto_guarded isCapturing
  else takePhoto_guarded isCapturing.

Definition toggleCameraType : Task unit :=
  perform (setCameraPosition (fun prev => match prev with
                                          | back => front
                                          | front => back
                                          end)).

Definition retakePhoto : Task unit :=
  perform (setCapturedImage None).

(** *** The world of the screen *)

(** The [useState] cells of the component ([location_] is the cell
    [location]). *)
Record State : Type := mkState {
  capturedImage : option CapturedImageData;
  location_ : option LocationData;
  isCapturing : bool;
  cameraPosition : CameraPosition;
  cameraError : option string
}.

(** A photo written to the library: the file and the album it went to. *)
Record Saved : Type := mkSaved {
  saved_tag : string;
  saved_album : string
}.

Inductive Event : Type :=
| Logged (msg : string) (detail : Detail).

(** [hasPermission] is the value of [useCameraPermission]; [cameraRef]
    tells whether [cameraRef.current] holds a mounted camera; [ticks]
    counts the clock reads so far; [roll] is the photo library and [log]
    the console, both oldest first. *)
Record World : Type := mkWorld {
  state : State;
  hasPermission : bool;
  cameraRef : bool;
  ticks : nat;
  roll : list Saved;
  log : list Event
}.

(** What the platform answers during one invocation: the k-th clock read
    returns [clock k]. *)
Record Env : Type := mkEnv {
  OS : PlatformOS;
  clock : nat -> number;
  locale : number -> string;
  prompt : Settled bool;
  geolocation : GeoResult;
  shutter : Settled (option PhotoFile);
  store : string -> Settled string
}.

Definition with_state (f : State -> State) (w : World) : World :=
  mkWorld (f (state w)) (hasPermission w) (cameraRef w) (ticks w) (roll w) (log w).

Definition emit (e : Event) (w : World) : World :=
  mkWorld (state w) (hasPermission w) (cameraRef w) (ticks w) (roll w) (log w ++ [e]).

Definition tick (w : World) : World :=
  mkWorld (state w) (hasPermission w) (cameraRef w) (S (ticks w)) (roll w) (log w).

Definition persist (r : Saved) (w : World) : World :=
  mkWorld (state w) (hasPermission w) (cameraRef w) (ticks w) (roll w ++ [r]) (log w).

Definition grant (b : bool) (w : World) : World :=
  mkWorld (state w) b (cameraRef w) (ticks w) (roll w) (log w).

Definition do_op (env : Env) (R : Type) (o : Op R) (w : World) : World * R :=
  match o in Op R return World * R with
  | setCapturedImage v =>
      (with_state (fun s => mkState v (location_ s) (isCapturing s)
                                    (cameraPosition s) (cameraError s)) w, tt)
  | setLocation v =>
      (with_state (fun s => mkState (capturedImage s) v (isCapturing s)
                                    (cameraPosition s) (cameraError s)) w, tt)
  | setIsCapturing v =>
      (with_state (fun s => mkState (capturedImage s) (location_ s) v
                                    (cameraPosition s) (cameraError s)) w, tt)
  | setCameraPosition f =>
      (with_state (fun s => mkState (capturedImage s) (location_ s) (isCapturing s)
                                    (f (cameraPosition s)) (cameraError s)) w, tt)
  | setCameraError v =>
      (with_state (fun s => mkState (capturedImage s) (location_ s) (isCapturing s)
                                    (cameraPosition s) v) w, tt)
  | cameraRef_current => (w, cameraRef w)
  | Platform_OS => (w, OS env)
  | Date_now => (tick w, clock env (ticks w))
  | Date_toLocaleString t => (w, locale env t)
  | console_error msg detail => (emit (Logged msg detail) w, tt)
  end.

(** The permission hook stores the answer to its prompt; a successful
    [CameraRoll.save] adds the file to the album. *)
Definition answer (env : Env) (R : Type) (c : Call R) (w : World) : World * R :=
  match c in Call R return World * R with
  | requestPermission =>
      (match prompt env with
       | Fulfilled b => grant b w
       | Rejected _ => w
       end, prompt env)
  | Geolocation_getCurrentPosition _ => (w, geolocation env)
  | Camera_takePhoto _ => (w, shutter env)
  | CameraRoll_save tag options =>
      (match store env tag with
       | Fulfilled _ => persist (mkSaved tag (album options)) w
       | Rejected _ => w
       end, store env tag)
  end.

Definition exec {A : Type} (env : Env) (p : Task A) (w : World) : World * Settled A :=
  run (do_op env) (answer env) p w.

(** The state of a freshly mounted component (lines 328-332). *)
Definition initial_state : State := mkState None None false back None.

(** The shutter handler is invoked and runs up to its first suspension
    point.  React commits the state updates of a handler before the next
    event is dispatched, so the handler invoked is the one of the render
    that shows the current state: it closes over the current
    [hasPermission] and [isCapturing]. *)
Definition invoke (env : Env) (w : World) : World * Paused Op Call unit :=
  advance (do_op env) (takePhoto (hasPermission w) (isCapturing (state w))) w.

(** The whole capture, started from the current render. *)
Definition capture (env : Env) (w : World) : World * Settled unit :=
  exec env (takePhoto (hasPermission w) (isCapturing (state w))) w.

(** The [Retake] button. *)
Definition retake (env : Env) (w : World) : World :=
  fst (exec env retakePhoto w).

(** [n] further invocations of the handler, each of the render current at
    that moment; an invocation that suspends is carried to its end. *)
Fixpoint presses (env : Env) (n : nat) (w : World) : World :=
  match n with
  | O => w
  | S n' => presses env n' (fst (capture env w))
  end.

(** A run in which the handler is invoked [n] more times at every
    suspension point, before the pending call is answered. *)
Fixpoint exec_pressed {A : Type} (env : Env) (n : nat) (p : Task A) (w : World)
  : World * Settled A :=
  match p with
  | Ret a => (w, Fulfilled a)
  | Throw e => (w, Rejected e)
  | Do o k => let '(w', r) := do_op env _ o w in exec_pressed env n (k r) w'
  | Await c k =>
      let '(w', r) := answer env _ c (presses env n w) in exec_pressed env n (k r) w'
  end.

(** Which screen the component renders (lines 461-553).  The three
    camera screens (no device yet, no format, live camera) differ in the
    device list only and are one case here. *)
Inductive Screen : Type :=
| PermissionScreen
| PreviewScreen (image : CapturedImageData) (overlay : option LocationData)
| CameraScreen (overlay : option LocationData) (error : option string)
               (shutterDisabled : bool).

Definition render (w : World) : Screen :=
  if negb (hasPermission w) then PermissionScreen
  else match capturedImage (state w) with
       | Some image => PreviewScreen image (location_ (state w))
       | None => CameraScreen (location_ (state w)) (cameraError (state w))
                              (isCapturing (state w))
       end.

(** *** Notions used in the statements *)

(** The fix substituted when the provider fails, for a world in which the
    clock has been read [ticks w] times. *)
Definition sentinel (env : Env) (w : World) : LocationData :=
  mkLocationData zero zero (clock env (ticks w))
                 (locale env (clock env (S (ticks w)))).

(** The message of the error overlay. *)
Definition retryMessage : string := "Failed to take photo. Please try again.".

(** The handler passes its guards: an attempt takes place. *)
Definition ready (w : World) : Prop :=
  hasPermission w = true /\ cameraRef w = true /\ isCapturing (state w) = false.

(** The camera delivers a photo with a non-empty path. *)
Definition delivers (env : Env) (photo : PhotoFile) : Prop :=
  shutter env = Fulfilled (Some photo) /\ str_falsy (path photo) = false.

(** Concrete devices and worlds. *)
Definition noon : number := lit 1700000000000%float.

Definition device (geo : GeoResult) (sh : Settled (option PhotoFile))
    (st : Settled string) : Env :=
  mkEnv android (fun _ => noon) (fun _ => "11/14/2023, 10:13:20 PM")
        (Fulfilled true) geo sh (fun _ => st).

Definition idle : World := mkWorld initial_state true true 0 [] [].

Definition no_fix : GeoResult := Failure (mkGeoError TIMEOUT "Location request timed out").
Definition a_fix : GeoResult := Position (mkGeoPosition (lit 17.385%float) (lit 78.4867%float) noon).
Definition a_photo : PhotoFile := mkPhotoFile "/data/cache/photo1.jpg".

(** The library after a run: what it held, and what the run added. *)
Definition added (w w' : World) (l : list Saved) : Prop :=
  roll w' = (roll w ++ l)%list.

(** The world in which the previous photo never existed: no preview, no
    location, no error message. *)
Definition forget (w : World) : World :=
  with_state (fun s => mkState None None (isCapturing s) (cameraPosition s) None) w.

Definition previewing : World :=
  fst (capture (device a_fix (Fulfilled (Some a_photo)) (Fulfilled "ok")) idle).

(** *** The camera widget and the whole screen *)

(** Line 524: the [onError] handler of the camera widget. *)
Definition onCameraError (error : Error) : Task unit :=
  perform (console_error "Camera error:" (OfError error)) ;;
  perform (setCameraError (Some (match error with MkError message => message end))).

(** A camera of the phone, as [useCameraDevices] lists it. *)
Inductive DevicePosition : Type := device_front | device_back | device_external.

Record CameraDeviceFormat : Type := mkFormat {
  photoWidth : number;
  photoHeight : number
}.

Record CameraDevice : Type := mkDevice {
  position : DevicePosition;
  formats : list CameraDeviceFormat
}.

(** [d.position === cameraPosition] *)
Definition at_position (cameraPosition : CameraPosition) (d : CameraDevice) : bool :=
  match position d, cameraPosition with
  | device_front, front => true
  | device_back, back => true
  | _, _ => false
  end.

(** Line 337: [devices?.find((d) => d.position === cameraPosition)] *)
Definition find_device (devices : option (list CameraDevice))
    (cameraPosition : CameraPosition) : option CameraDevice :=
  match devices with
  | Some ds => find (at_position cameraPosition) ds
  | None => None
  end.

(** [f.photoWidth && f.photoHeight] as a condition. *)
Definition photo_capable (f : CameraDeviceFormat) : bool :=
  truthy (photoWidth f) && truthy (photoHeight f).

(** Line 340: [device?.formats.find(...) || device?.formats[0]] *)
Definition select_format (device : option CameraDevice) : option CameraDeviceFormat :=
  match device with
  | Some d =>
      match find photo_capable (formats d) with
      | Some f => Some f
      | None => hd_error (formats d)
      end
  | None => None
  end.

(** Lines 461-553, every screen on its own. *)
Inductive View : Type :=
| PermissionView
| PreviewView (image : CapturedImageData) (overlay : option LocationData)
| LoadingView
| NoFormatView
| LiveView (device : CameraDevice) (format : CameraDeviceFormat) (isMirrored : bool)
           (overlay : option LocationData) (error : option string)
           (shutterDisabled : bool).

Definition view (devices : option (list CameraDevice)) (w : World) : View :=
  if negb (hasPermission w) then PermissionView
  else match capturedImage (state w) with
       | Some image => PreviewView image (location_ (state w))
       | None =>
           match find_device devices (cameraPosition (state w)) with
           | None => LoadingView
           | Some device =>
               match select_format (Some device) with
               | None => NoFormatView
               | Some format =>
                   LiveView device format
                            (match cameraPosition (state w) with
                             | front => true
                             | back => false
                             end)
                            (location_ (state w)) (cameraError (state w))
                            (isCapturing (state w))
               end
           end
       end.

(** What the user and the camera widget can do to the screen. *)
Inductive Action : Type :=
| PressShutter
| PressFlip
| PressRetake
| PressGrant
| CameraFault (error : Error).

(** The action is offered by the screen shown: the shutter (unless
    disabled) and the flip button by the live camera, which can also
    report an error; the retake button by the preview; the grant button by
    the permission screen. *)
Definition enabled (devices : option (list CameraDevice)) (w : World) (a : Action) : bool :=
  match view devices w, a with
  | LiveView _ _ _ _ _ disabled, PressShutter => negb disabled
  | LiveView _ _ _ _ _ _, PressFlip => true
  | LiveView _ _ _ _ _ _, CameraFault _ => true
  | PreviewView _ _, PressRetake => true
  | PermissionView, PressGrant => true
  | _, _ => false
  end.

(** [cameraRef.current] holds the camera exactly while the live camera is
    shown. *)
Definition mounted (devices : option (list CameraDevice)) (w : World) : World :=
  mkWorld (state w) (hasPermission w)
          (match view devices w with
           | LiveView _ _ _ _ _ _ => true
           | _ => false
           end)
          (ticks w) (roll w) (log w).

(** One action, carried to its end before the next one; [env] is what the
    platform answers meanwhile.  The grant button is bound to the
    [requestPermission] of the camera permission hook. *)
Definition act (devices : option (list CameraDevice)) (env : Env) (a : Action)
    (w : World) : World :=
  match a with
  | PressShutter => fst (capture env (mounted devices w))
  | PressFlip => fst (exec env toggleCameraType (mounted devices w))
  | PressRetake => retake env (mounted devices w)
  | PressGrant => fst (answer env _ requestPermission (mounted devices w))
  | CameraFault error => fst (exec env (onCameraError error) (mounted devices w))
  end.

(** The worlds the screen can be in, from [w0], between two actions. *)
Inductive reachable (devices : option (list CameraDevice)) (w0 : World) : World -> Prop :=
| reach_start : reachable devices w0 w0
| reach_act (env : Env) (a : Action) (w : World) :
    reachable devices w0 w ->
    enabled devices w a = true ->
    reachable devices w0 (act devices env a w).

(** A world right after the component is mounted. *)
Definition fresh (hasPermission : bool) (library : list Saved) : World :=
  mkWorld initial_state hasPermission false 0 library [].

(** A phone with a back camera only, and one with both. *)
Definition hd_format : CameraDeviceFormat := mkFormat (lit 4032%float) (lit 3024%float).
Definition back_only : option (list CameraDevice) :=
  Some [mkDevice device_back [hd_format]].
Definition both_cameras : option (list CameraDevice) :=
  Some [mkDevice device_back [hd_format]; mkDevice device_front [hd_format]].

(** What holds of the screen between two actions: no capture is in
    flight, and the location cell is the location of the photo shown. *)
Definition at_rest (w : World) : Prop :=
  isCapturing (state w) = false
  /\ forall image, capturedImage (state w) = Some image ->
                   location_ (state w) = Some (location image).

(** The record went to the album of the application. *)
Definition own_album (r : Saved) : Prop :=
  saved_album r = "GeoMapCamera".

(** A phone that refuses the camera prompt, and worlds without the camera
    permission or with an error message shown. *)
Definition refusing : Env :=
  mkEnv android (fun _ => noon) (fun _ => "11/14/2023, 10:13:20 PM")
        (Fulfilled false) a_fix (Fulfilled (Some a_photo)) (fun _ => Fulfilled "ok").

Definition unpermitted : World := mkWorld initial_state false true 0 [] [].

Definition after_failure : World :=
  fst (capture (device a_fix (Fulfilled None) (Fulfilled "ok")) idle).

End GeoCamera.

(* ===================================================================== *)
(** ** GeoMapView: the map and gallery screen *)
(* ===================================================================== *)

Module GeoMapView.

Record PhotoLocation : Type := mkPhotoLocation {
  latitude : number;
  longitude : number;
  timestamp : number
}.

Record PhotoDimensions : Type := mkPhotoDimensions {
  width : number;
  height : number
}.

Record PhotoData : Type := mkPhotoData {
  id : string;
  uri : string;
  location : PhotoLocation;
  dimensions : PhotoDimensions
}.

(** The [Region] of the map widget. *)
Record Region : Type := mkRegion {
  region_latitude : number;
  region_longitude : number;
  latitudeDelta : number;
  longitudeDelta : number
}.

(** An entry of the photo library as [CameraRoll.getPhotos] returns it:
    [node.image], [node.timestamp] (when the photo was taken) and
    [node.location], which is null or has optional coordinates. *)
Record NodeImage : Type := mkNodeImage {
  image_uri : string;
  image_width : number;
  image_height : number
}.

Record NodeLocation : Type := mkNodeLocation {
  node_latitude : option number;
  node_longitude : option number
}.

Record Node : Type := mkNode {
  image : NodeImage;
  node_timestamp : number;
  node_location : option NodeLocation
}.

Record Edge : Type := mkEdge {
  node : Node
}.

Record GetPhotosParams : Type := mkGetPhotosParams {
  first : Z;
  assetType : string;
  groupName : string;
  include : list string
}.

Inductive Op : Type -> Type :=
| setPhotos (v : list PhotoData) : Op unit
| setSelectedPhoto (v : option PhotoData) : Op unit
| setRegion (v : Region) : Op unit
| Date_now : Op number
| console_error (msg : string) (detail : Error) : Op unit.

Inductive Call : Type -> Type :=
| CameraRoll_getPhotos (params : GetPhotosParams) : Call (Settled (list Edge)).

Abbreviation Task := (Prog Op Call).

(** Lines 61-77: the callback of [edges.map]. *)
Definition processEdge (edge : Edge) : Task PhotoData :=
  let node := node edge in
  (* node.location || {} *)
  let location_latitude :=
    match node_location node with
    | Some l => node_latitude l
    | None => None
    end in
  let location_longitude :=
    match node_location node with
    | Some l => node_longitude l
    | None => None
    end in
  now <- perform Date_now ;;
  Ret (mkPhotoData
         (image_uri (image node))
         (image_uri (image node))
         (mkPhotoLocation (or_default location_latitude zero)
                          (or_default location_longitude zero)
                          now)
         (mkPhotoDimensions (image_width (image node)) (image_height (image node)))).

(** Line 78: the predicate of [.filter]. *)
Definition hasLocation (photo : PhotoData) : bool :=
  strict_neq (latitude (location photo)) zero
  && strict_neq (longitude (location photo)) zero.

(** The zoom levels the screen uses. *)
Definition delta_country : number := lit 20%float.
Definition delta_wide : number := lit 0.02%float.
Definition delta_tight : number := lit 0.005%float.

(** [loadPhotos] closes over the [permissionsGranted] of its render. *)
Definition loadPhotos (permissionsGranted : bool) : Task unit :=
  if negb permissionsGranted then Ret tt
  else
    try_catch
      (edges <- await (CameraRoll_getPhotos
                         (mkGetPhotosParams 50 "Photos" "GeoMapCamera"
                            ["location"; "imageSize"; "filename"])) ;;
       mapped <- mapM processEdge edges ;;
       let processedPhotos := filter hasLocation mapped in
       perform (setPhotos processedPhotos) ;;
       match processedPhotos with
       | lastPhoto :: _ =>
           perform (setRegion (mkRegion (latitude (location lastPhoto))
                                        (longitude (location lastPhoto))
                                        delta_wide delta_wide))
       | [] => Ret tt
       end)
      (fun error => perform (console_error "Error loading photos:" error)).

(** Lines 153-160: a thumbnail of the strip is pressed. *)
Definition onPressThumbnail (item : PhotoData) : Task unit :=
  perform (setSelectedPhoto (Some item)) ;;
  perform (setRegion (mkRegion (latitude (location item))
                               (longitude (location item))
                               delta_tight delta_tight)).

(** Line 132, line 173 and line 124. *)
Definition onPressMarker (photo : PhotoData) : Task unit :=
  perform (setSelectedPhoto (Some photo)).
Definition onPressClose : Task unit :=
  perform (setSelectedPhoto None).
Definition onRegionChangeComplete (r : Region) : Task unit :=
  perform (setRegion r).

(** *** The world of the screen *)

Inductive Event : Type :=
| Logged (msg : string) (detail : Error).

(** [photos], [selectedPhoto] and [region] are the [useState] cells;
    [permissionsGranted] is the value of [usePermissions]. *)
Record World : Type := mkWorld {
  photos : list PhotoData;
  selectedPhoto : option PhotoData;
  region : Region;
  permissionsGranted : bool;
  ticks : nat;
  log : list Event
}.

(** The k-th clock read returns [clock k]; [library] is what the photo
    library answers to a query. *)
Record Env : Type := mkEnv {
  clock : nat -> number;
  library : GetPhotosParams -> Settled (list Edge)
}.

Definition do_op (env : Env) (R : Type) (o : Op R) (w : World) : World * R :=
  match o in Op R return World * R with
  | setPhotos v =>
      (mkWorld v (selectedPhoto w) (region w) (permissionsGranted w) (ticks w) (log w), tt)
  | setSelectedPhoto v =>
      (mkWorld (photos w) v (region w) (permissionsGranted w) (ticks w) (log w), tt)
  | setRegion v =>
      (mkWorld (photos w) (selectedPhoto w) v (permissionsGranted w) (ticks w) (log w), tt)
  | Date_now =>
      (mkWorld (photos w) (selectedPhoto w) (region w) (permissionsGranted w)
               (S (ticks w)) (log w),
       clock env (ticks w))
  | console_error msg detail =>
      (mkWorld (photos w) (selectedPhoto w) (region w) (permissionsGranted w)
               (ticks w) (log w ++ [Logged msg detail]), tt)
  end.

Definition answer (env : Env) (R : Type) (c : Call R) (w : World) : World * R :=
  match c in Call R return World * R with
  | CameraRoll_getPhotos params => (w, library env params)
  end.

Definition exec {A : Type} (env : Env) (p : Task A) (w : World) : World * Settled A :=
  run (do_op env) (answer env) p w.

(** The state of a freshly mounted screen (lines 39-46); the hook starts
    with [permissionsGranted = false]. *)
Definition initial : World :=
  mkWorld [] None
          (mkRegion (lit 20.5937%float) (lit 78.9629%float) delta_country delta_country)
          false 0 [].

(** [loadPhotos] of the current render, run to its end. *)
Definition load (env : Env) (w : World) : World * Settled unit :=
  exec env (loadPhotos (permissionsGranted w)) w.

(** What can happen to the screen. *)
Inductive Action : Type :=
| PermissionsChange (granted : bool)
| PressThumbnail (item : PhotoData)
| PressMarker (photo : PhotoData)
| PressClose
| RegionChange (r : Region).

(** The hook reports a permission state; the effect of lines 97-101 loads
    the photos when it is granted (also when the value did not change,
    which only adds behaviours). *)
Definition step (env : Env) (a : Action) (w : World) : World :=
  match a with
  | PermissionsChange granted =>
      let w' := mkWorld (photos w) (selectedPhoto w) (region w) granted (ticks w) (log w) in
      if granted then fst (load env w') else w'
  | PressThumbnail item => fst (exec env (onPressThumbnail item) w)
  | PressMarker photo => fst (exec env (onPressMarker photo) w)
  | PressClose => fst (exec env onPressClose w)
  | RegionChange r => fst (exec env (onRegionChangeComplete r) w)
  end.

Inductive reachable : World -> Prop :=
| reach_initial : reachable initial
| reach_step (env : Env) (a : Action) (w : World) :
    reachable w -> reachable (step env a w).

(** *** Notions used in the statements *)

(** The query [loadPhotos] sends to the photo library. *)
Definition query : GetPhotosParams :=
  mkGetPhotosParams 50 "Photos" "GeoMapCamera" ["location"; "imageSize"; "filename"].

(** The photo [processEdge] builds when the clock reads [now]. *)
Definition convert (now : number) (edge : Edge) : PhotoData :=
  mkPhotoData
    (image_uri (image (node edge)))
    (image_uri (image (node edge)))
    (mkPhotoLocation
       (or_default (match node_location (node edge) with
                    | Some l => node_latitude l
                    | None => None
                    end) zero)
       (or_default (match node_location (node edge) with
                    | Some l => node_longitude l
                    | None => None
                    end) zero)
       now)
    (mkPhotoDimensions (image_width (image (node edge)))
                       (image_height (image (node edge)))).

(** The result of [edges.map] when the clock has been read [k] times
    before: the i-th entry is built at the (k+i)-th reading. *)
Fixpoint mapped (env : Env) (k : nat) (edges : list Edge) : list PhotoData :=
  match edges with
  | [] => []
  | edge :: rest => convert (clock env k) edge :: mapped env (S k) rest
  end.

Definition advance_clock (n : nat) (w : World) : World :=
  mkWorld (photos w) (selectedPhoto w) (region w) (permissionsGranted w)
          (n + ticks w) (log w).

Definition recentered (ps : list PhotoData) (r : Region) : Region :=
  match ps with
  | lastPhoto :: _ =>
      mkRegion (latitude (location lastPhoto)) (longitude (location lastPhoto))
               delta_wide delta_wide
  | [] => r
  end.

(** A coordinate of the library entry that is present and truthy. *)
Definition coordinate (o : option number) : bool :=
  match o with
  | Some v => truthy v
  | None => false
  end.

(** The entry carries a location with two such coordinates. *)
Definition located (edge : Edge) : bool :=
  match node_location (node edge) with
  | Some l => coordinate (node_latitude l) && coordinate (node_longitude l)
  | None => false
  end.

(** The region is centred on the coordinates stored with the entry. *)
Definition centred_on (edge : Edge) (r : Region) : Prop :=
  exists l, node_location (node edge) = Some l
            /\ node_latitude l = Some (region_latitude r)
            /\ node_longitude l = Some (region_longitude r).

(** A library of three entries. *)
Definition entry (u : string) (taken : number) (l : option NodeLocation) : Edge :=
  mkEdge (mkNode (mkNodeImage u (lit 3000%float) (lit 4000%float)) taken l).

Definition hyderabad : NodeLocation :=
  mkNodeLocation (Some (lit 17.385%float)) (Some (lit 78.4867%float)).
Definition delhi : NodeLocation :=
  mkNodeLocation (Some (lit 28.6139%float)) (Some (lit 77.209%float)).

Definition three_entries : list Edge :=
  [entry "ph://1" (lit 1690000000000%float) (Some hyderabad);
   entry "ph://2" (lit 1680000000000%float) None;
   entry "ph://3" (lit 1670000000000%float) (Some delhi)].

Definition a_library (answer : Settled (list Edge)) : Env :=
  mkEnv (fun k => lit 1700000000000%float) (fun _ => answer).

Definition granted_screen : World :=
  mkWorld (photos initial) None (region initial) true 0 [].

(** *** Further notions: what the list shows of a photo *)

(** A photo without the time at which it was rebuilt. *)
Definition timeless (p : PhotoData) : string * string * number * number * PhotoDimensions :=
  (id p, uri p, latitude (location p), longitude (location p), dimensions p).

(** The uri of a library entry. *)
Definition edge_uri (edge : Edge) : string := image_uri (image (node edge)).

(** A library with a photo taken on the equator. *)
Definition on_equator : Edge :=
  entry "ph://4" (lit 1660000000000%float)
        (Some (mkNodeLocation (Some zero) (Some (lit 78.4867%float)))).

(** Both coordinates of the photo are truthy numbers. *)
Definition truthy_coordinates (p : PhotoData) : Prop :=
  truthy (latitude (location p)) = true /\ truthy (longitude (location p)) = true.

(** The action is offered by the screen shown: the map, its markers and
    the strip of thumbnails exist only while the permissions are granted,
    a marker or a thumbnail only for a photo of the list, and the close
    button only while a photo is open. *)
Definition offered (w : World) (a : Action) : Prop :=
  match a with
  | PermissionsChange _ => True
  | PressThumbnail item => permissionsGranted w = true /\ In item (photos w)
  | PressMarker photo => permissionsGranted w = true /\ In photo (photos w)
  | PressClose => permissionsGranted w = true /\ selectedPhoto w <> None
  | RegionChange _ => permissionsGranted w = true
  end.

(** The worlds the screen reaches through the actions it offers. *)
Inductive visited : World -> Prop :=
| visit_initial : visited initial
| visit_step (env : Env) (a : Action) (w : World) :
    visited w -> offered w a -> visited (step env a w).

End GeoMapView.

(* ===================================================================== *)
(** ** Running a sequence and a [try]/[catch] *)
(* ===================================================================== *)

Module AsyncFacts.
Section Run.
Variables Op Call : Type -> Type.
Variable World : Type.
Variable do_op : forall R : Type, Op R -> World -> World * R.
Variable answer : forall R : Type, Call R -> World -> World * R.

(** Sequencing: the second part runs in the world the first one leaves,
    unless the first one throws. *)
Lemma run_bind {A B : Type} (p : Prog Op Call A) (f : A -> Prog Op Call B) (w : World) :
  run do_op answer (bind p f) w
  = match run do_op answer p w with
    | (w', Fulfilled a) => run do_op answer (f a) w'
    | (w', Rejected e) => (w', Rejected e)
    end.
Proof.
  revert w. induction p as [a | e | R o k IH | R c k IH]; intros w; cbn.
  - reflexivity.
  - reflexivity.
  - destruct (do_op R o w) as [w' r]. apply IH.
  - destruct (answer R c w) as [w' r]. apply IH.
Qed.

(** [try]/[catch]: the handler runs in the world the body leaves. *)
Lemma run_try_catch {A : Type} (p : Prog Op Call A) (h : Error -> Prog Op Call A)
    (w : World) :
  run do_op answer (try_catch p h) w
  = match run do_op answer p w with
    | (w', Fulfilled a) => (w', Fulfilled a)
    | (w', Rejected e) => run do_op answer (h e) w'
    end.
Proof.
  revert w. induction p as [a | e | R o k IH | R c k IH]; intros w; cbn.
  - reflexivity.
  - reflexivity.
  - destruct (do_op R o w) as [w' r]. apply IH.
  - destruct (answer R c w) as [w' r]. apply IH.
Qed.
End Run.
End AsyncFacts.

(* ===================================================================== *)
(** ** Properties of the Permission Gate *)
(* ===================================================================== *)

Module PermissionGate.
Import PermissionHandler.

Lemma is_granted_iff (s : PermissionStatus) : is_granted s = true <-> s = GRANTED.
Proof. destruct s; cbn; split; congruence. Qed.

Lemma is_granted_false (s : PermissionStatus) : is_granted s = false <-> s <> GRANTED.
Proof. destruct s; cbn; split; congruence. Qed.

(** On a platform with both permissions the hook runs lines 695-726. *)
Lemma exec_supported (env : Env) (w : World) (cam loc : Permission) :
  permissions_of (OS env) = Some (cam, loc) ->
  exec env requestPermissions w
  = exec env (try_catch (checkAndRequest cam loc) onError) w.
Proof.
  unfold permissions_of, exec, requestPermissions, Platform_select, perform.
  cbn. destruct (OS env); intros H; inversion H; subst; reflexivity.
Qed.

Lemma exec_unsupported (env : Env) (w : World) :
  permissions_of (OS env) = None ->
  exec env requestPermissions w
  = (emit (Logged "Permissions not defined for this platform" None) w, Fulfilled false).
Proof.
  unfold permissions_of, exec, requestPermissions, Platform_select, perform.
  cbn. destruct (OS env); intros H; inversion H; subst; reflexivity.
Qed.

(** Case analysis along one invocation: every platform answer, and whether
    each checked status is the granted one. *)
Ltac gate_cases :=
  unfold exec, checkAndRequest, onError, perform, await, emit;
  repeat (cbn -[is_granted];
    match goal with
    | |- context [match check_result ?env ?p with _ => _ end] =>
        let H := fresh "Hcheck" in destruct (check_result env p) eqn:H
    | |- context [match request_result ?env ?p with _ => _ end] =>
        let H := fresh "Hreq" in destruct (request_result env p) eqn:H
    | |- context [is_granted ?s] =>
        is_var s; let G := fresh "G" in destruct (is_granted s) eqn:G
    end);
  cbn -[is_granted].

Lemma checkAndRequest_returns (env : Env) (w : World) (cam loc : Permission) :
  snd (exec env (try_catch (checkAndRequest cam loc) onError) w)
  = Fulfilled match final_status env cam, final_status env loc with
              | Some c, Some l => is_granted c && is_granted l
              | _, _ => false
              end.
Proof.
  unfold final_status. gate_cases; reflexivity || congruence.
Qed.

Lemma checkAndRequest_log (env : Env) (w : World) (cam loc : Permission) :
  log (fst (exec env (try_catch (checkAndRequest cam loc) onError) w))
  = (log w ++ log (fst (exec env (try_catch (checkAndRequest cam loc) onError) initial)))%list.
Proof.
  gate_cases; repeat rewrite <- app_assoc; reflexivity.
Qed.

Lemma checkAndRequest_flag (env : Env) (w : World) (cam loc : Permission)
    (sc sl : PermissionStatus) :
  final_status env cam = Some sc -> final_status env loc = Some sl ->
  permissionsGranted (fst (exec env (try_catch (checkAndRequest cam loc) onError) w))
  = is_granted sc && is_granted sl
  /\ (is_granted sc && is_granted sl = false ->
      In notice (log (fst (exec env (try_catch (checkAndRequest cam loc) onError) initial)))).
Proof.
  unfold final_status, notice. gate_cases; intros Hc Hl;
    try discriminate; inversion Hc; inversion Hl; subst;
    try congruence;
    repeat match goal with H : is_granted _ = _ |- _ => rewrite H end;
    (split; [reflexivity | cbn; intros; try discriminate; auto 10]).
Qed.

Lemma checkAndRequest_checks (env : Env) (cam loc : Permission) :
  let t := log (fst (exec env (try_catch (checkAndRequest cam loc) onError) initial)) in
  In (Checked cam) t
  /\ (forall s, check_result env cam = Fulfilled s -> In (Checked loc) t).
Proof.
  gate_cases; (split; [auto 10 | intros; try discriminate; auto 10]).
Qed.

Lemma checkAndRequest_requests (env : Env) (cam loc p : Permission) :
  In (Requested p) (log (fst (exec env (try_catch (checkAndRequest cam loc) onError) initial))) ->
  exists s, check_result env p = Fulfilled s /\ s <> GRANTED.
Proof.
  gate_cases; intros HIn;
    repeat (destruct HIn as [HIn | HIn]; try discriminate);
    try contradiction;
    inversion HIn; subst;
    eexists; (split; [eassumption | apply is_granted_false; assumption]).
Qed.

(** C4: [requestPermissions] returns true exactly when both capabilities
    end up granted.  When both statuses are collected and one of them is
    not the granted one, the readiness flag is set to false and the notice
    is shown.  Every invocation queries both statuses again, whatever the
    stored flag, and requests a capability only when its checked status
    is not the granted one. *)
Theorem C4_permission_gate (env : Env) (w : World) :
  let w' := fst (exec env requestPermissions w) in
  (snd (exec env requestPermissions w) = Fulfilled (all_granted env)
   /\ (all_granted env = true <->
       exists cam loc,
         permissions_of (OS env) = Some (cam, loc)
         /\ final_status env cam = Some GRANTED
         /\ final_status env loc = Some GRANTED))
  /\ (forall cam loc sc sl,
        permissions_of (OS env) = Some (cam, loc) ->
        final_status env cam = Some sc ->
        final_status env loc = Some sl ->
        sc <> GRANTED \/ sl <> GRANTED ->
        permissionsGranted w' = false /\ In notice (trace env))
  /\ (log w' = (log w ++ trace env)%list
      /\ forall cam loc,
           permissions_of (OS env) = Some (cam, loc) ->
           In (Checked cam) (trace env)
           /\ (forall s, check_result env cam = Fulfilled s ->
               In (Checked loc) (trace env)))
  /\ (forall p, In (Requested p) (trace env) ->
        exists s, check_result env p = Fulfilled s /\ s <> GRANTED).
Proof.
  intros w'. subst w'. unfold trace, all_granted.
  destruct (permissions_of (OS env)) as [[cam loc] |] eqn:HP.
  - rewrite !(exec_supported env _ cam loc HP).
    repeat split.
    + apply checkAndRequest_returns.
    + intros H. exists cam, loc.
      destruct (final_status env cam) as [c |]; [| discriminate].
      destruct (final_status env loc) as [l |]; [| discriminate].
      apply andb_true_iff in H. destruct H as [Hc Hl].
      apply is_granted_iff in Hc, Hl. subst. auto.
    + intros (cam' & loc' & E & Hc & Hl). inversion E; subst.
      rewrite Hc, Hl. reflexivity.
    + inversion H; subst.
      destruct (checkAndRequest_flag env w cam0 loc0 sc sl H0 H1) as [F _].
      rewrite F. destruct H2 as [N | N]; apply is_granted_false in N; rewrite N;
        [reflexivity | apply andb_false_r].
    + inversion H; subst.
      destruct (checkAndRequest_flag env w cam0 loc0 sc sl H0 H1) as [_ F].
      apply F. destruct H2 as [N | N]; apply is_granted_false in N; rewrite N;
        [reflexivity | apply andb_false_r].
    + apply checkAndRequest_log.
    + inversion H; subst. apply checkAndRequest_checks.
    + inversion H; subst. apply checkAndRequest_checks.
    + apply checkAndRequest_requests.
  - rewrite !exec_unsupported by exact HP. cbn.
    repeat split; try discriminate.
    + intros (cam & loc & E & _). discriminate.
    + intros p [H | []]. discriminate.
Qed.

Lemma C4_permission_gate_witness :
  permissionsGranted (fst (exec location_denied requestPermissions (mkWorld true []))) = false
  /\ In notice (trace location_denied).
Proof.
  apply (proj1 (proj2 (C4_permission_gate location_denied (mkWorld true [])))
           ANDROID_CAMERA ANDROID_ACCESS_FINE_LOCATION GRANTED DENIED);
    [reflexivity | reflexivity | reflexivity | right; discriminate].
Defined.

End PermissionGate.

(* ===================================================================== *)
(** ** Properties of the Capture Workflow *)
(* ===================================================================== *)

Module CaptureWorkflow.
Import GeoCamera.

(** The world is split into its cells, so that the handlers compute. *)
Ltac open_world w :=
  let s := fresh "s" in
  destruct w as [s ? ? ? ? ?]; destruct s as [? ? ? ? ?];
  unfold ready, delivers in *; cbn [state hasPermission cameraRef isCapturing] in *.

(** One synchronous segment of the handlers. *)
Ltac run_capture :=
  unfold capture, invoke, retake, exec, takePhoto, takePhoto_guarded,
    takePhoto_attempt, cameraRef_takePhoto, getCurrentLocation, retakePhoto,
    alert, perform, await, sentinel, render,
    with_state, emit, tick, persist, grant;
  cbn -[String.append filePath_of].

(** What is known of the platform's answers is used where they occur. *)
Ltac use_env :=
  repeat match goal with
    | H : geolocation _ = _ |- _ => rewrite H
    | H : shutter _ = _ |- _ => rewrite H
    | H : store _ _ = _ |- _ => rewrite H
    | H : prompt _ = _ |- _ => rewrite H
    | H : str_falsy _ = _ |- _ => rewrite H
    end.

(** Case analysis along one capture: every platform answer in turn. *)
Ltac capture_cases :=
  repeat first
    [ progress (run_capture; use_env)
    | match goal with
      | |- context [match geolocation ?env with _ => _ end] =>
          destruct (geolocation env) eqn:?
      | |- context [match shutter ?env with _ => _ end] =>
          destruct (shutter env) as [[? |] | ?] eqn:?
      | |- context [if str_falsy ?p then _ else _] =>
          destruct (str_falsy p) eqn:?
      | |- context [match store ?env ?t with _ => _ end] =>
          destruct (store env t) eqn:?
      | |- context [match prompt ?env with _ => _ end] =>
          destruct (prompt env) as [[|] | ?] eqn:?
      end ].

(** C1: when the location provider reports an error (a timeout is one of
    its error codes), [getCurrentLocation] still resolves, with the fix
    (0, 0, now); the attempt goes on with it, and when the camera delivers
    a photo the capture succeeds with a record at coordinates (0, 0). *)
Theorem C1_location_failure (env : Env) (w : World) (error : GeoError) :
  geolocation env = Failure error ->
  ready w ->
  let w' := fst (capture env w) in
  snd (exec env getCurrentLocation w) = Fulfilled (sentinel env w)
  /\ location_ (state w') = Some (sentinel env w)
  /\ forall photo, delivers env photo ->
       snd (capture env w) = Fulfilled tt
       /\ exists image,
            capturedImage (state w') = Some image
            /\ latitude (location image) = zero
            /\ longitude (location image) = zero
            /\ timestamp (location image) = clock env (ticks w)
            /\ uri image = filePath_of (OS env) photo
            /\ render w' = PreviewScreen image (Some (location image)).
Proof.
  intros Hg (Hp & Hc & Hi) w'. subst w'. open_world w. subst.
  split; [| split].
  - capture_cases. reflexivity.
  - capture_cases; reflexivity.
  - intros photo (Hs & Hpath). capture_cases; (split; [reflexivity |]).
    all: eexists; repeat split; reflexivity.
Qed.

Lemma C1_location_failure_witness :
  location_ (state (fst (capture (device no_fix (Fulfilled (Some a_photo)) (Fulfilled "ok")) idle)))
  = Some (sentinel (device no_fix (Fulfilled (Some a_photo)) (Fulfilled "ok")) idle).
Proof.
  apply (C1_location_failure (device no_fix (Fulfilled (Some a_photo)) (Fulfilled "ok")) idle
           (mkGeoError TIMEOUT "Location request timed out")).
  - reflexivity.
  - repeat split.
Defined.

(** C5: when the camera delivers a photo and [CameraRoll.save] rejects,
    the capture still fulfils and the screen shows the preview of the
    captured file with the acquired location; the rejection is logged, no
    error message is set and nothing is added to the library. *)
Theorem C5_save_failure (env : Env) (w : World) (photo : PhotoFile) (e : Error) :
  ready w ->
  delivers env photo ->
  store env (filePath_of (OS env) photo) = Rejected e ->
  let w' := fst (capture env w) in
  snd (capture env w) = Fulfilled tt
  /\ (exists loc,
        snd (exec env getCurrentLocation w) = Fulfilled loc
        /\ render w' = PreviewScreen (mkCapturedImageData (filePath_of (OS env) photo) loc)
                                     (Some loc))
  /\ cameraError (state w') = None
  /\ isCapturing (state w') = false
  /\ In (Logged "Error saving to camera roll:" (OfError e)) (log w')
  /\ roll w' = roll w.
Proof.
  intros (Hp & Hc & Hi) (Hs & Hpath) Hst w'. subst w'. open_world w. subst.
  repeat split.
  - capture_cases; reflexivity.
  - capture_cases; eexists; split; reflexivity.
  - capture_cases; reflexivity.
  - capture_cases; reflexivity.
  - capture_cases; rewrite !in_app_iff; cbn; auto.
  - capture_cases; reflexivity.
Qed.

Lemma C5_save_failure_witness :
  render (fst (capture (device a_fix (Fulfilled (Some a_photo)) (Rejected (MkError "E_UNABLE_TO_SAVE"))) idle))
  = PreviewScreen
      (mkCapturedImageData "file:///data/cache/photo1.jpg"
         (mkLocationData (lit 17.385%float) (lit 78.4867%float) noon "11/14/2023, 10:13:20 PM"))
      (Some (mkLocationData (lit 17.385%float) (lit 78.4867%float) noon "11/14/2023, 10:13:20 PM")).
Proof.
  destruct (C5_save_failure
              (device a_fix (Fulfilled (Some a_photo)) (Rejected (MkError "E_UNABLE_TO_SAVE")))
              idle a_photo (MkError "E_UNABLE_TO_SAVE"))
    as (_ & (loc & Hloc & Hrender) & _).
  - repeat split.
  - split; reflexivity.
  - reflexivity.
  - inversion Hloc; subst. exact Hrender.
Defined.

(** An attempt that passes the guards raises the in-flight flag and
    suspends on the location request. *)
Lemma invoke_ready (env : Env) (w : World) :
  ready w ->
  exists k,
    snd (invoke env w)
    = Suspended (Geolocation_getCurrentPosition (mkGeoOptions true 15000 10000)) k
    /\ isCapturing (state (fst (invoke env w))) = true.
Proof.
  intros (Hp & Hc & Hi). open_world w. subst. run_capture.
  eexists. split; reflexivity.
Qed.

(** C9: after every attempt the in-flight flag is cleared and the handler
    would pass its guards again.  When the camera returns no image
    reference or an empty one, the attempt fails with the capture error:
    the retry message is set (the camera screen shows it, shutter enabled),
    the error is logged and no image is stored; the same holds, with the
    camera's own error, when the camera call rejects.  In both cases the
    handler's promise rejects with the error of the module's [alert]. *)
Theorem C9_failed_attempt (env : Env) (w : World) :
  ready w ->
  let w' := fst (capture env w) in
  (isCapturing (state w') = false /\ ready w')
  /\ (shutter env = Fulfilled None
      \/ (exists photo, shutter env = Fulfilled (Some photo) /\ path photo = "") ->
      cameraError (state w') = Some retryMessage
      /\ capturedImage (state w') = capturedImage (state w)
      /\ In (Logged "Error taking photo:" (OfError (MkError "Failed to capture photo")))
            (log w')
      /\ snd (capture env w) = Rejected (MkError "Function not implemented."))
  /\ (forall e, shutter env = Rejected e ->
      cameraError (state w') = Some retryMessage
      /\ capturedImage (state w') = capturedImage (state w)
      /\ In (Logged "Error taking photo:" (OfError e)) (log w')
      /\ snd (capture env w) = Rejected (MkError "Function not implemented."))
  /\ (capturedImage (state w) = None ->
      cameraError (state w') = Some retryMessage ->
      exists overlay, render w' = CameraScreen overlay (Some retryMessage) false).
Proof.
  intros (Hp & Hc & Hi) w'. subst w'. open_world w. subst.
  split; [| split; [| split]].
  - unfold ready. capture_cases; repeat split; reflexivity.
  - intros [Hs | (photo & Hs & Hpath)].
    + capture_cases; repeat split; try reflexivity; rewrite !in_app_iff; cbn; auto.
    + assert (Hf : str_falsy (path photo) = true) by (rewrite Hpath; reflexivity).
      capture_cases; repeat split; try reflexivity; rewrite !in_app_iff; cbn; auto.
  - intros e Hs.
    capture_cases; repeat split; try reflexivity; rewrite !in_app_iff; cbn; auto.
  - intros Hn. cbn in Hn. subst.
    capture_cases; intros Herr; try discriminate; eexists; reflexivity.
Qed.

Lemma C9_failed_attempt_witness :
  ready (fst (capture (device a_fix (Fulfilled (Some (mkPhotoFile ""))) (Fulfilled "ok")) idle)).
Proof.
  apply (C9_failed_attempt (device a_fix (Fulfilled (Some (mkPhotoFile ""))) (Fulfilled "ok")) idle).
  repeat split.
Defined.

(** While the flag is raised the handler returns at its guard. *)
Lemma invoke_in_flight (env : Env) (w : World) :
  hasPermission w = true ->
  isCapturing (state w) = true ->
  invoke env w = (w, Settle (Fulfilled tt)).
Proof.
  intros Hp Hi. open_world w. subst. run_capture.
  rewrite orb_true_r. reflexivity.
Qed.

Lemma capture_in_flight (env : Env) (w : World) :
  hasPermission w = true ->
  isCapturing (state w) = true ->
  capture env w = (w, Fulfilled tt).
Proof.
  intros Hp Hi. open_world w. subst. run_capture.
  rewrite orb_true_r. reflexivity.
Qed.

Lemma presses_in_flight (env : Env) (n : nat) (w : World) :
  hasPermission w = true ->
  isCapturing (state w) = true ->
  presses env n w = w.
Proof.
  intros Hp Hi. induction n as [| n IH]; cbn [presses].
  - reflexivity.
  - rewrite capture_in_flight by assumption. exact IH.
Qed.

(** C3: with the camera permission held, an invocation of the handler
    while the in-flight flag is raised returns at the guard without
    suspending and leaves the whole world (state, library, log) as it was.
    A capture during which the handler is invoked [n] more times at every
    suspension point ends in the same world as the capture alone, and it
    adds at most one record to the library: exactly the captured file when
    the camera delivers and the save succeeds. *)
Theorem C3_second_capture_noop (env : Env) (n : nat) (w : World) :
  hasPermission w = true ->
  (isCapturing (state w) = true -> invoke env w = (w, Settle (Fulfilled tt)))
  /\ exec_pressed env n (takePhoto true (isCapturing (state w))) w = capture env w
  /\ (exists l, added w (fst (exec_pressed env n (takePhoto true (isCapturing (state w))) w)) l
                /\ (List.length l <= 1)%nat)
  /\ (forall photo u,
        ready w -> delivers env photo ->
        store env (filePath_of (OS env) photo) = Fulfilled u ->
        added w (fst (exec_pressed env n (takePhoto true (isCapturing (state w))) w))
              [mkSaved (filePath_of (OS env) photo) "GeoMapCamera"]).
Proof.
  intros Hp.
  assert (E : exec_pressed env n (takePhoto true (isCapturing (state w))) w = capture env w).
  { open_world w. subst. unfold capture, exec. cbn [hasPermission state isCapturing].
    unfold takePhoto, takePhoto_guarded, takePhoto_attempt, cameraRef_takePhoto,
      getCurrentLocation, alert, perform, await.
    destruct cameraRef0, isCapturing0.
    all: repeat first
      [ progress (cbn -[String.append filePath_of presses])
      | rewrite presses_in_flight by reflexivity
      | match goal with
        | |- context [if ?b then _ else _] => is_var b; destruct b
        | |- context [match geolocation ?env with _ => _ end] =>
            destruct (geolocation env) eqn:?
        | |- context [match shutter ?env with _ => _ end] =>
            destruct (shutter env) as [[? |] | ?] eqn:?
        | |- context [if str_falsy ?p then _ else _] =>
            destruct (str_falsy p) eqn:?
        | |- context [match store ?env ?t with _ => _ end] =>
            destruct (store env t) eqn:?
        end ].
    all: reflexivity. }
  split; [| split; [| split]].
  - intros Hi. apply invoke_in_flight; assumption.
  - exact E.
  - rewrite E. unfold added. open_world w. subst.
    destruct cameraRef0, isCapturing0.
    all: capture_cases.
    all: first [ exists []; rewrite app_nil_r; split; [reflexivity | cbn; lia]
               | eexists [_]; split; [reflexivity | cbn; lia] ].
  - intros photo u (_ & Hc & Hi) (Hs & Hpath) Hst. rewrite E. unfold added.
    open_world w. subst. capture_cases; reflexivity.
Qed.

Lemma C3_second_capture_noop_witness :
  exec_pressed (device a_fix (Fulfilled (Some a_photo)) (Fulfilled "ok")) 2
    (takePhoto true false) idle
  = capture (device a_fix (Fulfilled (Some a_photo)) (Fulfilled "ok")) idle.
Proof.
  apply (C3_second_capture_noop (device a_fix (Fulfilled (Some a_photo)) (Fulfilled "ok")) 2 idle).
  reflexivity.
Defined.

(** C6: [retakePhoto] clears the preview and nothing else, so that the
    camera screen is shown again.  A capture that follows ends in the same
    world as a capture from a world in which the discarded photo never
    existed, and when the camera delivers it ends on the preview of the
    new photo with the newly acquired location. *)
Theorem C6_retake (env env' : Env) (w : World) :
  let w1 := retake env' w in
  ready w1 ->
  (capturedImage (state w1) = None
   /\ w1 = with_state (fun s => mkState None (location_ s) (isCapturing s)
                                        (cameraPosition s) (cameraError s)) w
   /\ render w1 = CameraScreen (location_ (state w)) (cameraError (state w)) false)
  /\ capture env w1 = capture env (forget w)
  /\ (forall photo, delivers env photo ->
        snd (capture env w1) = Fulfilled tt
        /\ exists loc,
             snd (exec env getCurrentLocation w) = Fulfilled loc
             /\ render (fst (capture env w1))
                = PreviewScreen (mkCapturedImageData (filePath_of (OS env) photo) loc)
                                (Some loc)).
Proof.
  intros w1 (Hp & Hc & Hi). subst w1. open_world w.
  unfold retake, exec, retakePhoto, perform, forget in *.
  cbn [run do_op fst with_state state hasPermission cameraRef isCapturing
       capturedImage location_ cameraPosition cameraError ticks roll log] in *.
  subst.
  split; [repeat split | split].
  - capture_cases; reflexivity.
  - intros photo (Hs & Hpath).
    capture_cases; (split; [reflexivity | eexists; split; reflexivity]).
Qed.

Lemma C6_retake_witness :
  capture (device no_fix (Fulfilled (Some (mkPhotoFile "/data/cache/photo2.jpg"))) (Fulfilled "ok"))
          (retake (device no_fix (Fulfilled None) (Fulfilled "ok")) previewing)
  = capture (device no_fix (Fulfilled (Some (mkPhotoFile "/data/cache/photo2.jpg"))) (Fulfilled "ok"))
            (forget previewing).
Proof.
  apply (C6_retake
           (device no_fix (Fulfilled (Some (mkPhotoFile "/data/cache/photo2.jpg"))) (Fulfilled "ok"))
           (device no_fix (Fulfilled None) (Fulfilled "ok")) previewing).
  repeat split.
Defined.

End CaptureWorkflow.

(* ===================================================================== *)
(** ** Properties of the Gallery Reconstruction *)
(* ===================================================================== *)

Module GalleryReconstruction.
Import GeoMapView AsyncFacts.

(** Running [edges.map(...)]: it never throws and reads the clock once
    per entry. *)
Lemma run_mapM (env : Env) (edges : list Edge) (w : World) :
  exec env (mapM processEdge edges) w
  = (advance_clock (List.length edges) w, Fulfilled (mapped env (ticks w) edges)).
Proof.
  unfold exec. revert w. induction edges as [| edge rest IH]; intros w.
  - destruct w; reflexivity.
  - cbn [mapM]. rewrite run_bind. unfold processEdge at 1, perform.
    cbn [bind run do_op]. rewrite run_bind, IH. cbn.
    unfold advance_clock. cbn. rewrite Nat.add_succ_r. reflexivity.
Qed.

(** What a successful load leaves behind. *)
Lemma load_fulfilled (env : Env) (w : World) (edges : list Edge) :
  permissionsGranted w = true ->
  library env query = Fulfilled edges ->
  load env w
  = (mkWorld (filter hasLocation (mapped env (ticks w) edges))
             (selectedPhoto w)
             (recentered (filter hasLocation (mapped env (ticks w) edges)) (region w))
             true
             (List.length edges + ticks w)
             (log w),
     Fulfilled tt).
Proof.
  intros Hp Hq. unfold load, exec, loadPhotos. rewrite Hp. cbn [negb].
  rewrite run_try_catch, run_bind. unfold await at 1. cbn [run answer]. fold query.
  rewrite Hq. cbn [run]. rewrite run_bind. 
  pose proof (run_mapM env edges w) as HM. unfold exec in HM. rewrite HM.
  unfold recentered, perform.
  destruct (filter hasLocation (mapped env (ticks w) edges)) as [| p ps];
    cbn; rewrite Hp; reflexivity.
Qed.

Lemma load_rejected (env : Env) (w : World) (e : Error) :
  permissionsGranted w = true ->
  library env query = Rejected e ->
  load env w
  = (mkWorld (photos w) (selectedPhoto w) (region w) true (ticks w)
             (log w ++ [Logged "Error loading photos:" e]),
     Fulfilled tt).
Proof.
  intros Hp Hq. unfold load, exec, loadPhotos. rewrite Hp. cbn [negb].
  rewrite run_try_catch, run_bind. unfold await at 1. cbn [run answer]. fold query.
  rewrite Hq. cbn. rewrite Hp. reflexivity.
Qed.

Lemma load_denied (env : Env) (w : World) :
  permissionsGranted w = false ->
  load env w = (w, Fulfilled tt).
Proof.
  intros Hp. unfold load, exec, loadPhotos. rewrite Hp. reflexivity.
Qed.

(** *** Numbers *)

Lemma or_default_strict_neq (o : option number) :
  strict_neq (or_default o zero) zero = coordinate o.
Proof.
  destruct o as [x |]; [| reflexivity].
  destruct x as [s | s | | s m e]; try reflexivity; destruct s; reflexivity.
Qed.

Lemma or_default_truthy (o : option number) :
  truthy (or_default o zero) = coordinate o.
Proof.
  destruct o as [x |]; [| reflexivity].
  destruct x as [s | s | | s m e]; reflexivity.
Qed.

Lemma or_default_coordinate (o : option number) :
  coordinate o = true -> o = Some (or_default o zero).
Proof.
  destruct o as [x |]; [| discriminate]. cbn. intros H. rewrite H. reflexivity.
Qed.

Lemma hasLocation_convert (now : number) (edge : Edge) :
  hasLocation (convert now edge) = located edge.
Proof.
  unfold hasLocation, convert, located. cbn.
  rewrite !or_default_strict_neq. destruct (node_location (node edge)); reflexivity.
Qed.

Lemma mapped_spec (env : Env) (edges : list Edge) (k i : nat) (edge : Edge) :
  nth_error edges i = Some edge ->
  nth_error (mapped env k edges) i = Some (convert (clock env (k + i)) edge).
Proof.
  revert k i. induction edges as [| e rest IH]; intros k i H.
  - destruct i; discriminate.
  - destruct i as [| i]; cbn in *.
    + inversion H; subst. rewrite Nat.add_0_r. reflexivity.
    + rewrite (IH (S k) i H). rewrite Nat.add_succ_r. reflexivity.
Qed.

Lemma mapped_In (env : Env) (edges : list Edge) (k : nat) (p : PhotoData) :
  In p (mapped env k edges) -> exists now edge, In edge edges /\ p = convert now edge.
Proof.
  revert k. induction edges as [| e rest IH]; intros k H; cbn in H.
  - contradiction.
  - destruct H as [H | H].
    + exists (clock env k), e. split; [left; reflexivity | symmetry; exact H].
    + destruct (IH _ H) as (now & edge & Hin & Hp).
      exists now, edge. split; [right; exact Hin | exact Hp].
Qed.

Lemma mapped_length (env : Env) (edges : list Edge) (k : nat) :
  List.length (mapped env k edges) = List.length edges.
Proof.
  revert k. induction edges as [| e rest IH]; intros k; cbn; [| rewrite IH]; reflexivity.
Qed.

Lemma mapped_ext (env1 env2 : Env) (edges : list Edge) (k : nat) :
  (forall i, clock env1 i = clock env2 i) ->
  mapped env1 k edges = mapped env2 k edges.
Proof.
  intros H. revert k. induction edges as [| e rest IH]; intros k; cbn.
  - reflexivity.
  - rewrite H, IH. reflexivity.
Qed.

(** C2: after a load that the library answers, a photo is in the list of
    the screen exactly when it is one of the processed entries and both
    its latitude and its longitude are [!== 0]; the coordinates of every
    photo in the list are truthy numbers, and no photo at the (0, 0)
    sentinel is in the list. *)
Theorem C2_gallery_filter (env : Env) (w : World) (edges : list Edge) :
  permissionsGranted w = true ->
  library env query = Fulfilled edges ->
  let shown := photos (fst (load env w)) in
  (forall p, In p shown <->
             In p (mapped env (ticks w) edges)
             /\ strict_neq (latitude (location p)) zero = true
             /\ strict_neq (longitude (location p)) zero = true)
  /\ (forall p, In p shown ->
                truthy (latitude (location p)) = true
                /\ truthy (longitude (location p)) = true)
  /\ (forall p, latitude (location p) = zero /\ longitude (location p) = zero ->
                ~ In p shown).
Proof.
  intros Hp Hq shown. subst shown. rewrite (load_fulfilled env w edges Hp Hq).
  cbn [fst photos].
  assert (Hiff : forall p, In p (filter hasLocation (mapped env (ticks w) edges)) <->
             In p (mapped env (ticks w) edges)
             /\ strict_neq (latitude (location p)) zero = true
             /\ strict_neq (longitude (location p)) zero = true).
  { intros p. rewrite filter_In. unfold hasLocation. rewrite andb_true_iff. tauto. }
  split; [exact Hiff | split].
  - intros p Hin. apply filter_In in Hin. destruct Hin as [Hin Hloc].
    destruct (mapped_In _ _ _ _ Hin) as (now & edge & _ & ->).
    unfold hasLocation in Hloc. cbn in *.
    rewrite !or_default_strict_neq in Hloc. rewrite !or_default_truthy.
    apply andb_true_iff in Hloc. exact Hloc.
  - intros p [Hlat Hlon] Hin. apply Hiff in Hin. destruct Hin as (_ & Hne & _).
    rewrite Hlat in Hne. discriminate.
Qed.

Lemma C2_gallery_filter_witness :
  truthy (latitude (location (convert (lit 1700000000000%float)
                                      (entry "ph://1" (lit 1690000000000%float)
                                             (Some hyderabad))))) = true
  /\ truthy (longitude (location (convert (lit 1700000000000%float)
                                          (entry "ph://1" (lit 1690000000000%float)
                                                 (Some hyderabad))))) = true.
Proof.
  destruct (C2_gallery_filter (a_library (Fulfilled three_entries)) granted_screen
              three_entries eq_refl eq_refl) as (_ & Htruthy & _).
  apply Htruthy. left. reflexivity.
Defined.

(** Every photo of every reachable screen has a location. *)
Lemma reachable_hasLocation (w : World) :
  reachable w -> forall p, In p (photos w) -> hasLocation p = true.
Proof.
  induction 1 as [| env a w Hw IH]; intros p Hin.
  - contradiction.
  - destruct a as [granted | item | photo | | r]; cbn in Hin; try (apply IH; exact Hin).
    destruct granted; [| apply IH; exact Hin].
    set (w1 := mkWorld (photos w) (selectedPhoto w) (region w) true (ticks w) (log w)) in *.
    destruct (library env query) as [edges | e] eqn:Hq.
    + rewrite (load_fulfilled env w1 edges eq_refl Hq) in Hin. cbn in Hin.
      apply filter_In in Hin. apply Hin.
    + rewrite (load_rejected env w1 e eq_refl Hq) in Hin. apply IH. exact Hin.
Qed.

(** C7: [loadPhotos] sends one query, for the 50 first entries of the
    album GeoMapCamera with location and size included, and its result
    depends on the library through the answer to that query only.  The
    i-th entry becomes a photo whose id and uri are the entry's image uri,
    whose coordinates are 0 when the entry has no location, and whose
    timestamp is the clock reading taken while that entry is processed,
    whatever time the library stores for it.  When the library returns no
    more entries than asked for, at most 50 photos are kept. *)
Theorem C7_reconstruction (env : Env) (w : World) (edges : list Edge) :
  permissionsGranted w = true ->
  library env query = Fulfilled edges ->
  (first query = 50%Z /\ groupName query = "GeoMapCamera"
   /\ In "location" (include query) /\ In "imageSize" (include query))
  /\ (forall env2, (forall k, clock env2 k = clock env k) ->
                   library env2 query = library env query ->
                   load env2 w = load env w)
  /\ photos (fst (load env w)) = filter hasLocation (mapped env (ticks w) edges)
  /\ (forall i edge, nth_error edges i = Some edge ->
        exists p, nth_error (mapped env (ticks w) edges) i = Some p
                  /\ id p = image_uri (image (node edge))
                  /\ uri p = image_uri (image (node edge))
                  /\ (node_location (node edge) = None ->
                      latitude (location p) = zero /\ longitude (location p) = zero)
                  /\ timestamp (location p) = clock env (ticks w + i)
                  /\ (forall taken,
                        p = convert (clock env (ticks w + i))
                              (mkEdge (mkNode (image (node edge)) taken
                                              (node_location (node edge))))))
  /\ ((Z.of_nat (List.length edges) <= first query)%Z ->
      (List.length (photos (fst (load env w))) <= 50)%nat).
Proof.
  intros Hp Hq. split; [| split; [| split; [| split]]].
  - repeat split; cbn; auto.
  - intros env2 Hclock Hlib. rewrite Hq in Hlib.
    rewrite (load_fulfilled env w edges Hp Hq), (load_fulfilled env2 w edges Hp Hlib).
    rewrite (mapped_ext env2 env edges (ticks w) Hclock). reflexivity.
  - rewrite (load_fulfilled env w edges Hp Hq). reflexivity.
  - intros i edge Hi. exists (convert (clock env (ticks w + i)) edge).
    split; [apply mapped_spec; exact Hi |].
    repeat split.
    + cbn. rewrite H. reflexivity.
    + cbn. rewrite H. reflexivity.
  - intros Hlen. rewrite (load_fulfilled env w edges Hp Hq). cbn [fst photos].
    pose proof (filter_length_le hasLocation (mapped env (ticks w) edges)) as Hf.
    rewrite mapped_length in Hf. cbn in Hlen. lia.
Qed.

Lemma C7_reconstruction_witness :
  photos (fst (load (a_library (Fulfilled three_entries)) granted_screen))
  = filter hasLocation (mapped (a_library (Fulfilled three_entries)) 0 three_entries).
Proof.
  apply (C7_reconstruction (a_library (Fulfilled three_entries)) granted_screen three_entries);
    reflexivity.
Defined.

(** C8: after a load that the library answers, a non-empty list of photos
    centres the map on its first photo at the wide zoom, and an empty one
    leaves the region as it was.  Pressing a thumbnail selects the photo
    and centres the map on it at the tight zoom, which is the smaller
    span.  When the library returns three entries, one of them without a
    location and the two others located, two photos are kept, in the order
    of the library, and the map is centred on the first located entry. *)
Theorem C8_recenter (env : Env) (w : World) (edges : list Edge) :
  permissionsGranted w = true ->
  library env query = Fulfilled edges ->
  let w' := fst (load env w) in
  (forall p rest, photos w' = p :: rest ->
     region w' = mkRegion (latitude (location p)) (longitude (location p))
                          delta_wide delta_wide)
  /\ (photos w' = [] -> region w' = region w)
  /\ (forall env0 w0 item,
        region (fst (exec env0 (onPressThumbnail item) w0))
        = mkRegion (latitude (location item)) (longitude (location item))
                   delta_tight delta_tight
        /\ selectedPhoto (fst (exec env0 (onPressThumbnail item) w0)) = Some item)
  /\ lt delta_tight delta_wide = true
  /\ (forall e1 e2 e3 kept1 kept2,
        edges = [e1; e2; e3] ->
        (node_location (node e1) = None /\ kept1 = e2 /\ kept2 = e3)
        \/ (kept1 = e1 /\ node_location (node e2) = None /\ kept2 = e3)
        \/ (kept1 = e1 /\ kept2 = e2 /\ node_location (node e3) = None) ->
        located kept1 = true -> located kept2 = true ->
        List.length (photos w') = 2%nat
        /\ map uri (photos w') = [image_uri (image (node kept1));
                                  image_uri (image (node kept2))]
        /\ centred_on kept1 (region w')
        /\ latitudeDelta (region w') = delta_wide
        /\ longitudeDelta (region w') = delta_wide).
Proof.
  intros Hp Hq w'. subst w'. rewrite (load_fulfilled env w edges Hp Hq).
  cbn [fst photos region].
  split; [| split; [| split; [| split]]].
  - intros p rest H. rewrite H. reflexivity.
  - intros H. rewrite H. reflexivity.
  - intros env0 w0 item. split; reflexivity.
  - vm_compute. reflexivity.
  - intros e1 e2 e3 kept1 kept2 He Hcase H1 H2. subst edges.
    assert (Hnone : forall e, node_location (node e) = None -> located e = false).
    { intros e H. unfold located. rewrite H. reflexivity. }
    assert (Hcentre : forall now e d,
               located e = true ->
               centred_on e (mkRegion (latitude (location (convert now e)))
                                      (longitude (location (convert now e))) d d)).
    { intros now e d H. unfold located in H. unfold centred_on, convert. cbn.
      destruct (node_location (node e)) as [l |]; [| discriminate].
      apply andb_true_iff in H. destruct H as [Hlat Hlon].
      exists l. split; [reflexivity |].
      split; apply or_default_coordinate; assumption. }
    cbn [mapped filter]. rewrite !hasLocation_convert.
    destruct Hcase as [(Hn & -> & ->) | [(-> & Hn & ->) | (-> & -> & Hn)]];
      rewrite (Hnone _ Hn), H1, H2; cbn [recentered List.length map uri];
      (repeat split; [apply Hcentre; assumption]).
Qed.

Lemma C8_recenter_witness :
  centred_on (entry "ph://1" (lit 1690000000000%float) (Some hyderabad))
             (region (fst (load (a_library (Fulfilled three_entries)) granted_screen))).
Proof.
  destruct (C8_recenter (a_library (Fulfilled three_entries)) granted_screen three_entries
              eq_refl eq_refl) as (_ & _ & _ & _ & Hscenario).
  apply (Hscenario
           (entry "ph://1" (lit 1690000000000%float) (Some hyderabad))
           (entry "ph://2" (lit 1680000000000%float) None)
           (entry "ph://3" (lit 1670000000000%float) (Some delhi))
           (entry "ph://1" (lit 1690000000000%float) (Some hyderabad))
           (entry "ph://3" (lit 1670000000000%float) (Some delhi))).
  - reflexivity.
  - right. left. repeat split.
  - reflexivity.
  - reflexivity.
Defined.

(** C10: when the query to the library rejects, [loadPhotos] still
    fulfils; the photos, the selection and the region are the ones held
    before the call, and the only trace is one logged error. *)
Theorem C10_load_error (env : Env) (w : World) (e : Error) :
  library env query = Rejected e ->
  let w' := fst (load env w) in
  snd (load env w) = Fulfilled tt
  /\ photos w' = photos w
  /\ region w' = region w
  /\ selectedPhoto w' = selectedPhoto w
  /\ permissionsGranted w' = permissionsGranted w
  /\ log w' = (if permissionsGranted w
               then log w ++ [Logged "Error loading photos:" e]
               else log w)%list.
Proof.
  intros Hq w'. subst w'.
  destruct (permissionsGranted w) eqn:Hp.
  - rewrite (load_rejected env w e Hp Hq). cbn. repeat split; auto.
  - rewrite (load_denied env w Hp). cbn. rewrite Hp. repeat split.
Qed.

Lemma C10_load_error_witness :
  photos (fst (load (a_library (Rejected (MkError "E_UNABLE_TO_LOAD"))) granted_screen))
  = photos granted_screen.
Proof.
  apply (C10_load_error (a_library (Rejected (MkError "E_UNABLE_TO_LOAD"))) granted_screen
           (MkError "E_UNABLE_TO_LOAD")).
  reflexivity.
Defined.

End GalleryReconstruction.

(* ===================================================================== *)
(** ** Further properties of the Permission Gate *)
(* ===================================================================== *)

Module PermissionEdges.
Import PermissionHandler PermissionGate.

(** X1: on a platform other than Android and iOS the hook returns false
    after logging one error; it issues no platform call, shows no notice
    and leaves the stored flag as it was. *)
Theorem unsupported_platform (env : Env) (w : World) :
  OS env <> android -> OS env <> ios ->
  exec env requestPermissions w
  = (mkWorld (permissionsGranted w)
             (log w ++ [Logged "Permissions not defined for this platform" None]),
     Fulfilled false)
  /\ (forall p, ~ In (Checked p) (trace env) /\ ~ In (Requested p) (trace env))
  /\ ~ In notice (trace env).
Proof.
  intros Ha Hi.
  assert (HP : permissions_of (OS env) = None)
    by (destruct (OS env); try reflexivity; congruence).
  unfold trace. rewrite !(exec_unsupported env _ HP). cbn.
  split; [reflexivity | split].
  - intros p. split; intros [H | []]; discriminate.
  - intros [H | []]. discriminate.
Qed.

Lemma unsupported_platform_witness :
  snd (exec desktop requestPermissions (mkWorld true [])) = Fulfilled false
  /\ permissionsGranted (fst (exec desktop requestPermissions (mkWorld true []))) = true.
Proof.
  destruct (unsupported_platform desktop (mkWorld true [])) as (E & _).
  - discriminate.
  - discriminate.
  - rewrite E. split; reflexivity.
Defined.

(** X2: when one of the platform calls rejects, the hook still fulfils,
    with false; the error of the first rejecting call is logged, no notice
    is shown and the stored flag keeps the value it had before the
    invocation. *)
Theorem rejection_keeps_flag (env : Env) (w : World) (cam loc : Permission) (e : Error) :
  permissions_of (OS env) = Some (cam, loc) ->
  first_rejection env cam loc = Some e ->
  snd (exec env requestPermissions w) = Fulfilled false
  /\ permissionsGranted (fst (exec env requestPermissions w)) = permissionsGranted w
  /\ In (Logged "Error requesting permissions:" (Some e)) (trace env)
  /\ ~ In notice (trace env).
Proof.
  intros HP. unfold trace. rewrite !(exec_supported env _ cam loc HP).
  unfold first_rejection, notice.
  gate_cases; intros H; try discriminate; inversion H; subst;
    (split; [reflexivity | split; [reflexivity | split;
      [ auto 10
      | intros HIn; repeat (destruct HIn as [HIn | HIn]; try discriminate);
        contradiction ]]]).
Qed.

Lemma rejection_keeps_flag_witness :
  snd (exec location_check_fails requestPermissions (mkWorld true [])) = Fulfilled false
  /\ permissionsGranted (fst (exec location_check_fails requestPermissions (mkWorld true [])))
     = true.
Proof.
  destruct (rejection_keeps_flag location_check_fails (mkWorld true [])
              IOS_CAMERA IOS_LOCATION_WHEN_IN_USE (MkError "E_CHECK") eq_refl eq_refl)
    as (R & F & _).
  split; [exact R | exact F].
Defined.

(** X3: when both checks report the granted status, the hook issues the
    two checks and nothing else (no prompt, no notice), raises the flag
    and returns true. *)
Theorem already_granted (env : Env) (w : World) (cam loc : Permission) :
  permissions_of (OS env) = Some (cam, loc) ->
  check_result env cam = Fulfilled GRANTED ->
  check_result env loc = Fulfilled GRANTED ->
  exec env requestPermissions w
  = (mkWorld true (log w ++ [Checked cam; Checked loc]), Fulfilled true).
Proof.
  intros HP Hc Hl. rewrite (exec_supported env _ cam loc HP).
  unfold exec, checkAndRequest, onError, perform, await, emit. cbn.
  rewrite Hc. cbn. rewrite Hl. cbn. rewrite <- app_assoc. reflexivity.
Qed.

Lemma already_granted_witness :
  exec all_set requestPermissions initial
  = (mkWorld true [Checked ANDROID_CAMERA; Checked ANDROID_ACCESS_FINE_LOCATION],
     Fulfilled true).
Proof.
  apply (already_granted all_set initial ANDROID_CAMERA ANDROID_ACCESS_FINE_LOCATION);
    reflexivity.
Defined.

(** X4: when neither check reports the granted status and both prompts
    are answered, both prompts are issued, the camera one first, whatever
    the answer to the camera prompt; the notice follows unless both
    answers are the granted status. *)
Theorem both_prompts_issued (env : Env) (cam loc : Permission)
    (sc sl sc' sl' : PermissionStatus) :
  permissions_of (OS env) = Some (cam, loc) ->
  check_result env cam = Fulfilled sc -> sc <> GRANTED ->
  check_result env loc = Fulfilled sl -> sl <> GRANTED ->
  request_result env cam = Fulfilled sc' ->
  request_result env loc = Fulfilled sl' ->
  trace env
  = ([Checked cam; Checked loc; Requested cam; Requested loc]
     ++ (if is_granted sc' && is_granted sl' then [] else [notice]))%list.
Proof.
  intros HP Hc Nc Hl Nl Rc Rl. unfold trace.
  rewrite (exec_supported env _ cam loc HP).
  apply is_granted_false in Nc, Nl.
  unfold exec, checkAndRequest, onError, perform, await, emit, notice. cbn -[is_granted].
  rewrite Hc. cbn -[is_granted]. rewrite Hl. cbn -[is_granted].
  rewrite Nc. cbn -[is_granted]. rewrite Rc. cbn -[is_granted].
  rewrite Nl. cbn -[is_granted]. rewrite Rl. cbn -[is_granted].
  destruct (is_granted sc' && is_granted sl'); reflexivity.
Qed.

Lemma both_prompts_issued_witness :
  trace both_refused
  = [Checked ANDROID_CAMERA; Checked ANDROID_ACCESS_FINE_LOCATION;
     Requested ANDROID_CAMERA; Requested ANDROID_ACCESS_FINE_LOCATION; notice].
Proof.
  apply (both_prompts_issued both_refused ANDROID_CAMERA ANDROID_ACCESS_FINE_LOCATION
           DENIED DENIED BLOCKED BLOCKED);
    (reflexivity || discriminate).
Defined.


End PermissionEdges.

(* ===================================================================== *)
(** ** Further properties of the Capture Workflow *)
(* ===================================================================== *)

Module CaptureEdges.
Import GeoCamera CaptureWorkflow.

(** The guards pass again after every attempt. *)
Lemma capture_ready (env : Env) (w : World) :
  ready w -> ready (fst (capture env w)).
Proof.
  intros (Hp & Hc & Hi). open_world w. subst.
  capture_cases; repeat split; reflexivity.
Qed.

(** X6: without the camera permission the handler first asks for it; when
    the prompt is not answered by a grant, nothing is captured: the
    promise rejects, and the state cells, the library and the log are left
    as they were. *)
Theorem no_capture_without_permission (env : Env) (w : World) :
  hasPermission w = false ->
  prompt env <> Fulfilled true ->
  state (fst (capture env w)) = state w
  /\ roll (fst (capture env w)) = roll w
  /\ log (fst (capture env w)) = log w
  /\ hasPermission (fst (capture env w)) = false
  /\ exists e, snd (capture env w) = Rejected e.
Proof.
  intros Hp Hprompt. open_world w. subst.
  capture_cases; try congruence; repeat split; eexists; reflexivity.
Qed.

Lemma no_capture_without_permission_witness :
  hasPermission unpermitted = false
  /\ roll (fst (capture refusing unpermitted)) = roll unpermitted.
Proof.
  split; [reflexivity |].
  apply (no_capture_without_permission refusing unpermitted);
    [reflexivity | discriminate].
Defined.



(** X8: a record is written to the library only by an invocation that
    holds or obtains the permission, finds the camera mounted and no
    capture in flight, and whose camera call delivers a photo that the
    library accepts; it is then the one record of that file in the album
    GeoMapCamera. *)
Theorem record_only_when_captured (env : Env) (w : World) :
  roll (fst (capture env w)) <> roll w ->
  (hasPermission w = true \/ prompt env = Fulfilled true)
  /\ cameraRef w = true
  /\ isCapturing (state w) = false
  /\ exists photo u,
       delivers env photo
       /\ store env (filePath_of (OS env) photo) = Fulfilled u
       /\ roll (fst (capture env w))
          = (roll w ++ [mkSaved (filePath_of (OS env) photo) "GeoMapCamera"])%list.
Proof.
  open_world w.
  destruct hasPermission0, cameraRef0, isCapturing0.
  all: capture_cases; intros H; try (exfalso; apply H; reflexivity).
  all: repeat split; auto; do 2 eexists; repeat split; eassumption.
Qed.

Lemma record_only_when_captured_witness :
  cameraRef idle = true /\ isCapturing (state idle) = false.
Proof.
  destruct (record_only_when_captured
              (device a_fix (Fulfilled (Some a_photo)) (Fulfilled "ok")) idle)
    as (_ & Hc & Hi & _).
  - discriminate.
  - split; [exact Hc | exact Hi].
Defined.

(** X9: when the provider delivers a fix, the captured record carries the
    provider's latitude, longitude and timestamp, with the date formatted
    from that timestamp, and the clock of the phone is not read. *)
Theorem provider_fix_recorded (env : Env) (w : World) (p : GeoPosition)
    (photo : PhotoFile) :
  geolocation env = Position p ->
  ready w ->
  delivers env photo ->
  capturedImage (state (fst (capture env w)))
  = Some (mkCapturedImageData
            (filePath_of (OS env) photo)
            (mkLocationData (coords_latitude p) (coords_longitude p)
                            (position_timestamp p)
                            (locale env (position_timestamp p))))
  /\ ticks (fst (capture env w)) = ticks w.
Proof.
  intros Hg (Hp & Hc & Hi) (Hs & Hpath). open_world w. subst.
  capture_cases; split; reflexivity.
Qed.

Lemma provider_fix_recorded_witness :
  ticks (fst (capture (device a_fix (Fulfilled (Some a_photo)) (Fulfilled "ok")) idle))
  = ticks idle.
Proof.
  apply (provider_fix_recorded (device a_fix (Fulfilled (Some a_photo)) (Fulfilled "ok"))
           idle (mkGeoPosition (lit 17.385%float) (lit 78.4867%float) noon) a_photo).
  - reflexivity.
  - repeat split.
  - split; reflexivity.
Defined.

(** X10: after a capture whose save succeeds, the file written to the
    library is the file shown in the preview, and it is written to the
    album the map screen queries; on Android the uri is the path of the
    camera prefixed by file://, elsewhere the path itself. *)
Theorem saved_file_is_previewed (env : Env) (w : World) (photo : PhotoFile) (u : string) :
  ready w ->
  delivers env photo ->
  store env (filePath_of (OS env) photo) = Fulfilled u ->
  exists image,
    capturedImage (state (fst (capture env w))) = Some image
    /\ roll (fst (capture env w))
       = (roll w ++ [mkSaved (uri image) (GeoMapView.groupName GeoMapView.query)])%list
    /\ (OS env = android -> uri image = "file://" ++ path photo)
    /\ (OS env <> android -> uri image = path photo).
Proof.
  intros (Hp & Hc & Hi) (Hs & Hpath) Hst. open_world w. subst.
  capture_cases; eexists; (split; [reflexivity | split; [reflexivity | split]]).
  all: cbn [uri]; unfold filePath_of; destruct (OS env); intros H; congruence.
Qed.

Lemma saved_file_is_previewed_witness :
  exists image,
    capturedImage (state (fst (capture (device a_fix (Fulfilled (Some a_photo))
                                               (Fulfilled "ok")) idle))) = Some image
    /\ roll (fst (capture (device a_fix (Fulfilled (Some a_photo)) (Fulfilled "ok")) idle))
       = (roll idle ++ [mkSaved (uri image) (GeoMapView.groupName GeoMapView.query)])%list
    /\ (OS (device a_fix (Fulfilled (Some a_photo)) (Fulfilled "ok")) = android ->
        uri image = "file://" ++ path a_photo)
    /\ (OS (device a_fix (Fulfilled (Some a_photo)) (Fulfilled "ok")) <> android ->
        uri image = path a_photo).
Proof.
  apply (saved_file_is_previewed (device a_fix (Fulfilled (Some a_photo)) (Fulfilled "ok"))
           idle a_photo "ok").
  - repeat split.
  - split; reflexivity.
  - reflexivity.
Defined.

(** X11: what a capture writes to the library, and whether it succeeds,
    does not depend on the location: two phones that differ in the answer
    of the location provider, the clock and the locale only leave the same
    library and settle the promise alike. *)
Theorem location_never_persisted (env1 env2 : Env) (w : World) :
  OS env1 = OS env2 ->
  prompt env1 = prompt env2 ->
  shutter env1 = shutter env2 ->
  (forall tag, store env1 tag = store env2 tag) ->
  roll (fst (capture env1 w)) = roll (fst (capture env2 w))
  /\ snd (capture env1 w) = snd (capture env2 w).
Proof.
  intros HOS Hprompt Hshutter Hstore. open_world w.
  destruct hasPermission0, cameraRef0, isCapturing0.
  all: run_capture; rewrite ?Hprompt; run_capture.
  all: try (split; reflexivity).
  all: try (destruct (prompt env2) as [[|] | ?]; run_capture; try (split; reflexivity)).
  all: destruct (geolocation env1), (geolocation env2); run_capture;
    rewrite Hshutter; destruct (shutter env2) as [[photo |] | ?]; run_capture;
    try (split; reflexivity);
    destruct (str_falsy (path photo)); run_capture; try (split; reflexivity);
    rewrite HOS, Hstore; destruct (store env2 (filePath_of (OS env2) photo));
    run_capture; split; reflexivity.
Qed.

Lemma location_never_persisted_witness :
  roll (fst (capture (device a_fix (Fulfilled (Some a_photo)) (Fulfilled "ok")) idle))
  = roll (fst (capture (device no_fix (Fulfilled (Some a_photo)) (Fulfilled "ok")) idle)).
Proof.
  apply (location_never_persisted
           (device a_fix (Fulfilled (Some a_photo)) (Fulfilled "ok"))
           (device no_fix (Fulfilled (Some a_photo)) (Fulfilled "ok")) idle);
    reflexivity.
Defined.

(** X12: a capture that succeeds after any earlier attempt leaves no
    error message: whatever the first attempt did, the second ends on the
    preview of its own photo with the message cleared. *)
Theorem retry_clears_error (env1 env2 : Env) (w : World) (photo : PhotoFile) :
  ready w ->
  delivers env2 photo ->
  let w1 := fst (capture env1 w) in
  let w2 := fst (capture env2 w1) in
  cameraError (state w2) = None
  /\ snd (capture env2 w1) = Fulfilled tt
  /\ exists image, render w2 = PreviewScreen image (Some (location image))
                   /\ uri image = filePath_of (OS env2) photo.
Proof.
  intros Hw Hd w1 w2. subst w2.
  assert (H1 : ready w1) by (apply capture_ready; exact Hw).
  clearbody w1. clear Hw w. destruct H1 as (Hp & Hc & Hi). destruct Hd as (Hs & Hpath).
  open_world w1. subst.
  capture_cases; (split; [reflexivity | split; [reflexivity |]]);
    eexists (mkCapturedImageData _ _); split; reflexivity.
Qed.

Lemma retry_clears_error_witness :
  cameraError (state after_failure) = Some retryMessage
  /\ cameraError (state (fst (capture (device a_fix (Fulfilled (Some a_photo))
                                              (Fulfilled "ok")) after_failure))) = None.
Proof.
  split; [reflexivity |].
  apply (retry_clears_error (device a_fix (Fulfilled None) (Fulfilled "ok"))
           (device a_fix (Fulfilled (Some a_photo)) (Fulfilled "ok")) idle a_photo).
  - repeat split.
  - split; reflexivity.
Defined.

(** X13: the flip button switches the selected camera, and pressing it
    twice restores the whole world; a capture never changes the
    selection. *)
Theorem camera_selection (env env' : Env) (w : World) :
  fst (exec env' toggleCameraType (fst (exec env toggleCameraType w))) = w
  /\ cameraPosition (state (fst (exec env toggleCameraType w)))
     <> cameraPosition (state w)
  /\ cameraPosition (state (fst (capture env w))) = cameraPosition (state w).
Proof.
  open_world w. split; [| split].
  - unfold exec, toggleCameraType, perform, with_state. cbn.
    destruct cameraPosition0; reflexivity.
  - unfold exec, toggleCameraType, perform, with_state. cbn.
    destruct cameraPosition0; discriminate.
  - destruct hasPermission0, cameraRef0, isCapturing0; capture_cases; reflexivity.
Qed.

End CaptureEdges.

(* ===================================================================== *)
(** ** The camera widget and the actions of the user *)
(* ===================================================================== *)

Module CameraScreenFacts.
Import GeoCamera CaptureWorkflow.

(** The first element satisfying a predicate: where [find] stops. *)
Lemma find_first {A : Type} (f : A -> bool) (l : list A) (x : A) :
  find f l = Some x ->
  exists before after,
    l = (before ++ x :: after)%list /\ f x = true
    /\ forallb (fun y => negb (f y)) before = true.
Proof.
  induction l as [| y l IH]; cbn; intros H.
  - discriminate.
  - destruct (f y) eqn:Hy.
    + inversion H; subst. exists [], l. repeat split. exact Hy.
    + destruct (IH H) as (before & after & -> & Hx & Hb).
      exists (y :: before), after. repeat split; [exact Hx |].
      cbn. rewrite Hy. exact Hb.
Qed.

Lemma find_none_forallb {A : Type} (f : A -> bool) (l : list A) :
  find f l = None -> forallb (fun y => negb (f y)) l = true.
Proof.
  induction l as [| y l IH]; cbn; intros H.
  - reflexivity.
  - destruct (f y); [discriminate |]. cbn. apply IH. exact H.
Qed.

(** No format is selected exactly when the device lists none. *)
Lemma select_format_none (d : CameraDevice) :
  select_format (Some d) = None <-> formats d = [].
Proof.
  unfold select_format.
  destruct (find photo_capable (formats d)) as [f |] eqn:Hf.
  - split; [discriminate |]. intros E. rewrite E in Hf. discriminate.
  - destruct (formats d) as [| g rest]; cbn; split; congruence.
Qed.

(** X14: the format selected for a device is the first one of its list
    with a photo width and a photo height, and the head of the list when
    there is none; no format is selected exactly when the list is
    empty. *)
Theorem select_format_spec (d : CameraDevice) :
  (select_format (Some d) = None <-> formats d = [])
  /\ (forall f, select_format (Some d) = Some f ->
        (photo_capable f = true
         /\ exists before after,
              formats d = (before ++ f :: after)%list
              /\ forallb (fun g => negb (photo_capable g)) before = true)
        \/ (forallb (fun g => negb (photo_capable g)) (formats d) = true
            /\ exists rest, formats d = f :: rest)).
Proof.
  split.
  - apply select_format_none.
  - unfold select_format. intros f H. destruct (find photo_capable (formats d)) as [f' |] eqn:Hf.
    + inversion H; subst. left.
      destruct (find_first _ _ _ Hf) as (before & after & E & Hcap & Hb).
      split; [exact Hcap |]. exists before, after. split; assumption.
    + right. split; [apply find_none_forallb; exact Hf |].
      destruct (formats d) as [| g rest]; [discriminate |].
      inversion H; subst. exists rest. reflexivity.
Qed.

Lemma select_format_spec_witness :
  photo_capable hd_format = true
  /\ exists before after,
       formats (mkDevice device_back [mkFormat zero zero; hd_format])
       = (before ++ hd_format :: after)%list
       /\ forallb (fun g => negb (photo_capable g)) before = true.
Proof.
  destruct (proj2 (select_format_spec (mkDevice device_back [mkFormat zero zero; hd_format]))
              hd_format eq_refl) as [H | (H & _)].
  - exact H.
  - discriminate H.
Defined.

(** X15: the live camera (and with it the shutter) is shown exactly when
    the permission is held, no preview is open, and the phone has a camera
    at the selected position that lists at least one format. *)
Theorem live_camera_shown (devices : option (list CameraDevice)) (w : World) :
  (exists device format mirrored overlay error disabled,
     view devices w = LiveView device format mirrored overlay error disabled)
  <-> hasPermission w = true
      /\ capturedImage (state w) = None
      /\ exists device,
           find_device devices (cameraPosition (state w)) = Some device
           /\ formats device <> [].
Proof.
  unfold view. split.
  - intros (device & format & m & o & e & dis & H).
    destruct (hasPermission w); [| discriminate].
    destruct (capturedImage (state w)); [discriminate |].
    destruct (find_device devices (cameraPosition (state w))) as [d |]; [| discriminate].
    repeat split. exists d. split; [reflexivity |].
    intros E. apply select_format_none in E. rewrite E in H. discriminate.
  - intros (Hp & Hc & d & Hd & Hf). rewrite Hp, Hc, Hd. cbn [negb].
    destruct (select_format (Some d)) as [f |] eqn:Hs.
    + repeat eexists.
    + apply select_format_none in Hs. contradiction.
Qed.

Lemma live_camera_shown_witness :
  exists device format mirrored overlay error disabled,
    view back_only (fresh true []) = LiveView device format mirrored overlay error disabled.
Proof.
  apply (proj2 (live_camera_shown back_only (fresh true []))).
  repeat split. exists (mkDevice device_back [hd_format]).
  split; [reflexivity | discriminate].
Defined.

Lemma enabled_shutter (devices : option (list CameraDevice)) (w : World) :
  enabled devices w PressShutter = true ->
  hasPermission w = true /\ capturedImage (state w) = None.
Proof.
  unfold enabled, view.
  destruct (hasPermission w); [| discriminate].
  destruct (capturedImage (state w)); [discriminate |]. auto.
Qed.

Lemma capture_at_rest (env : Env) (w : World) :
  at_rest w -> capturedImage (state w) = None -> at_rest (fst (capture env w)).
Proof.
  unfold at_rest. intros (Hi & _) Hn. open_world w. cbn in Hn. subst.
  destruct hasPermission0, cameraRef0.
  all: capture_cases; (split; [reflexivity | intros image H; inversion H; reflexivity]).
Qed.

Lemma act_at_rest (devices : option (list CameraDevice)) (env : Env) (a : Action)
    (w : World) :
  at_rest w -> enabled devices w a = true -> at_rest (act devices env a w).
Proof.
  intros Hw Ha. destruct a as [| | | | error]; unfold act.
  - apply capture_at_rest.
    + exact Hw.
    + apply (enabled_shutter devices w Ha).
  - destruct Hw as (Hi & Hl). split; cbn; assumption.
  - destruct Hw as (Hi & Hl). split; cbn; [assumption | discriminate].
  - destruct Hw as (Hi & Hl). unfold answer.
    destruct (prompt env) as [b | e]; split; cbn; assumption.
  - destruct Hw as (Hi & Hl). destruct error as [message]. split; cbn; assumption.
Qed.

(** X16: between two actions of the user no capture is in flight, and
    whenever the preview is shown its overlay is the location of the photo
    previewed. *)
Theorem preview_shows_its_location (devices : option (list CameraDevice))
    (hasPermission0 : bool) (library : list Saved) (w : World) :
  reachable devices (fresh hasPermission0 library) w ->
  isCapturing (state w) = false
  /\ forall image overlay,
       view devices w = PreviewView image overlay -> overlay = Some (location image).
Proof.
  intros H.
  assert (Hrest : at_rest w).
  { induction H as [| env a w Hw IH Ha].
    - split; [reflexivity | discriminate].
    - apply act_at_rest; assumption. }
  destruct Hrest as (Hi & Hl). split; [exact Hi |].
  intros image overlay Hv. unfold view in Hv.
  destruct (hasPermission w); [| discriminate].
  destruct (capturedImage (state w)) as [img |] eqn:Hc.
  - inversion Hv; subst. apply Hl. reflexivity.
  - destruct (find_device devices (cameraPosition (state w))); [| discriminate].
    destruct (select_format (Some c)); discriminate.
Qed.

Lemma capture_roll (env : Env) (w : World) :
  exists l, roll (fst (capture env w)) = (roll w ++ l)%list /\ Forall own_album l.
Proof.
  open_world w. destruct hasPermission0, cameraRef0, isCapturing0.
  all: capture_cases.
  all: first [ exists []; rewrite app_nil_r; split; [reflexivity | constructor]
             | eexists [_]; split; [reflexivity | repeat constructor] ].
Qed.

Lemma act_roll (devices : option (list CameraDevice)) (env : Env) (a : Action)
    (w : World) :
  exists l, roll (act devices env a w) = (roll w ++ l)%list /\ Forall own_album l.
Proof.
  destruct a as [| | | | error]; unfold act.
  - apply (capture_roll env (mounted devices w)).
  - exists []. rewrite app_nil_r. split; [reflexivity | constructor].
  - exists []. rewrite app_nil_r. split; [reflexivity | constructor].
  - exists []. rewrite app_nil_r. unfold answer.
    destruct (prompt env); split; (reflexivity || constructor).
  - exists []. rewrite app_nil_r. destruct error. split; [reflexivity | constructor].
Qed.

Lemma preview_shows_its_location_witness :
  isCapturing (state (act back_only (device a_fix (Fulfilled (Some a_photo)) (Fulfilled "ok"))
                          PressShutter (fresh true []))) = false.
Proof.
  apply (preview_shows_its_location back_only true []).
  apply reach_act; [apply reach_start | reflexivity].
Defined.

(** X17: whatever the user does, the library keeps the records it had
    when the screen was mounted, in their order, and every record added
    after them is in the album GeoMapCamera. *)
Theorem library_only_grows (devices : option (list CameraDevice))
    (hasPermission0 : bool) (library : list Saved) (w : World) :
  reachable devices (fresh hasPermission0 library) w ->
  exists added,
    roll w = (library ++ added)%list /\ Forall own_album added.
Proof.
  induction 1 as [| env a w Hw IH Ha].
  - exists []. rewrite app_nil_r. split; [reflexivity | constructor].
  - destruct IH as (added & E & Hall).
    destruct (act_roll devices env a w) as (l & El & Hl).
    exists (added ++ l)%list. split.
    + rewrite El, E, app_assoc. reflexivity.
    + apply Forall_app. split; assumption.
Qed.

Lemma library_only_grows_witness :
  exists added,
    roll (act back_only (device a_fix (Fulfilled (Some a_photo)) (Fulfilled "ok"))
              PressShutter (fresh true [mkSaved "file:///old.jpg" "Camera"]))
    = ([mkSaved "file:///old.jpg" "Camera"] ++ added)%list
    /\ Forall own_album added.
Proof.
  apply (library_only_grows back_only true [mkSaved "file:///old.jpg" "Camera"]).
  apply reach_act; [apply reach_start | reflexivity].
Defined.

(** X18: when the phone has no camera at the other position, pressing the
    flip button leads to the loading screen, which offers no action: the
    screen stays in that world (as long as the device list does not
    change). *)
Theorem flip_without_device (devices : option (list CameraDevice)) (env : Env)
    (w : World) :
  enabled devices w PressFlip = true ->
  find_device devices (match cameraPosition (state w) with
                       | back => front
                       | front => back
                       end) = None ->
  let w1 := act devices env PressFlip w in
  view devices w1 = LoadingView
  /\ (forall a, enabled devices w1 a = false)
  /\ (forall w2, reachable devices w1 w2 -> w2 = w1).
Proof.
  intros Ha Hnone w1.
  assert (Hv : view devices w1 = LoadingView).
  { subst w1. unfold enabled in Ha. unfold act, view in *. cbn.
    destruct (hasPermission w); [| discriminate]. cbn in *.
    destruct (capturedImage (state w)); [discriminate |].
    rewrite Hnone. reflexivity. }
  assert (Hdis : forall a, enabled devices w1 a = false).
  { intros a. unfold enabled. rewrite Hv. destruct a; reflexivity. }
  split; [exact Hv | split; [exact Hdis |]].
  intros w2 H. induction H as [| env2 a w2 Hw IH Hen].
  - reflexivity.
  - subst w2. rewrite Hdis in Hen. discriminate.
Qed.

Lemma flip_without_device_witness :
  view back_only (act back_only (device a_fix (Fulfilled None) (Fulfilled "ok"))
                      PressFlip (fresh true []))
  = LoadingView.
Proof.
  apply (flip_without_device back_only (device a_fix (Fulfilled None) (Fulfilled "ok"))
           (fresh true [])); reflexivity.
Defined.

End CameraScreenFacts.

(* ===================================================================== *)
(** ** Further properties of the Gallery Reconstruction *)
(* ===================================================================== *)

Module GalleryEdges.
Import GeoMapView GalleryReconstruction.

Lemma filter_mapped (env : Env) (k : nat) (edges : list Edge) :
  map timeless (filter hasLocation (mapped env k edges))
  = map (fun e => timeless (convert zero e)) (filter located edges).
Proof.
  revert k. induction edges as [| e rest IH]; intros k; cbn [mapped filter].
  - reflexivity.
  - rewrite hasLocation_convert. destruct (located e); cbn [map]; rewrite IH; reflexivity.
Qed.

Lemma mapped_In_index (env : Env) (k : nat) (edges : list Edge) (p : PhotoData) :
  In p (mapped env k edges) <->
  exists i e, nth_error edges i = Some e /\ p = convert (clock env (k + i)) e.
Proof.
  split.
  - revert k. induction edges as [| e rest IH]; intros k H; cbn in H.
    + contradiction.
    + destruct H as [H | H].
      * exists 0%nat, e. rewrite Nat.add_0_r. split; [reflexivity | symmetry; exact H].
      * destruct (IH _ H) as (i & e' & Hi & Hp).
        exists (S i), e'. rewrite Nat.add_succ_r. split; assumption.
  - intros (i & e & Hi & ->). apply (nth_error_In _ i). apply mapped_spec. exact Hi.
Qed.

(** X19: the list of the screen keeps the order of the library answer
    and every located entry of it, duplicates included: the uris (and ids)
    shown are those of the located entries, in order. *)
Theorem order_and_multiplicity (env : Env) (w : World) (edges : list Edge) :
  permissionsGranted w = true ->
  library env query = Fulfilled edges ->
  map uri (photos (fst (load env w))) = map edge_uri (filter located edges)
  /\ map id (photos (fst (load env w))) = map edge_uri (filter located edges)
  /\ List.length (photos (fst (load env w))) = List.length (filter located edges).
Proof.
  intros Hp Hq. rewrite (load_fulfilled env w edges Hp Hq). cbn [fst photos].
  pose proof (filter_mapped env (ticks w) edges) as H.
  assert (Hu : map (fun t : string * string * number * number * PhotoDimensions =>
                      snd (fst (fst (fst t))))
                   (map timeless (filter hasLocation (mapped env (ticks w) edges)))
               = map uri (filter hasLocation (mapped env (ticks w) edges))).
  { rewrite map_map. reflexivity. }
  assert (Hi : map (fun t : string * string * number * number * PhotoDimensions =>
                      fst (fst (fst (fst t))))
                   (map timeless (filter hasLocation (mapped env (ticks w) edges)))
               = map id (filter hasLocation (mapped env (ticks w) edges))).
  { rewrite map_map. reflexivity. }
  rewrite H in Hu, Hi. rewrite map_map in Hu, Hi.
  split; [| split].
  - rewrite <- Hu. reflexivity.
  - rewrite <- Hi. reflexivity.
  - rewrite <- (length_map timeless), H, length_map. reflexivity.
Qed.

(** X20: a photo is shown exactly when it is built from an entry of the
    library answer whose location holds truthy coordinates, and it then
    carries the coordinates stored with that entry. *)
Theorem shown_photos_carry_stored_data (env : Env) (w : World) (edges : list Edge) :
  permissionsGranted w = true ->
  library env query = Fulfilled edges ->
  forall p,
    In p (photos (fst (load env w))) <->
    exists i e l,
      nth_error edges i = Some e
      /\ p = convert (clock env (ticks w + i)) e
      /\ node_location (node e) = Some l
      /\ node_latitude l = Some (latitude (location p))
      /\ node_longitude l = Some (longitude (location p))
      /\ truthy (latitude (location p)) = true
      /\ truthy (longitude (location p)) = true.
Proof.
  intros Hp Hq p. rewrite (load_fulfilled env w edges Hp Hq). cbn [fst photos].
  rewrite filter_In, mapped_In_index. split.
  - intros ((i & e & Hi & ->) & Hloc). rewrite hasLocation_convert in Hloc.
    unfold located in Hloc.
    destruct (node_location (node e)) as [l |] eqn:Hl; [| discriminate].
    apply andb_true_iff in Hloc. destruct Hloc as [Hlat Hlon].
    exists i, e, l. cbn. rewrite Hl, !or_default_truthy.
    repeat split; auto using or_default_coordinate.
  - intros (i & e & l & Hi & -> & Hl & Hlat & Hlon & Tlat & Tlon).
    split; [exists i, e; split; [exact Hi | reflexivity] |].
    rewrite hasLocation_convert. unfold located. rewrite Hl.
    cbn in Hlat, Hlon, Tlat, Tlon. rewrite Hl in *.
    rewrite or_default_truthy in Tlat, Tlon. rewrite Tlat, Tlon. reflexivity.
Qed.

Lemma order_and_multiplicity_witness :
  map uri (photos (fst (load (a_library (Fulfilled three_entries)) granted_screen)))
  = ["ph://1"; "ph://3"].
Proof.
  destruct (order_and_multiplicity (a_library (Fulfilled three_entries)) granted_screen
              three_entries eq_refl eq_refl) as (H & _).
  exact H.
Defined.

Lemma shown_photos_carry_stored_data_witness :
  In (convert (lit 1700000000000%float)
              (entry "ph://3" (lit 1670000000000%float) (Some delhi)))
     (photos (fst (load (a_library (Fulfilled three_entries)) granted_screen))).
Proof.
  apply (shown_photos_carry_stored_data (a_library (Fulfilled three_entries))
           granted_screen three_entries eq_refl eq_refl).
  exists 2%nat, (entry "ph://3" (lit 1670000000000%float) (Some delhi)), delhi.
  repeat split.
Defined.

(** X21: an entry whose latitude, or whose longitude, is missing, zero or
    NaN is never shown, whatever its other coordinate: a photo taken on
    the equator or on the prime meridian does not reach the map. *)
Theorem zero_coordinate_is_dropped (env : Env) (w : World) (edges : list Edge)
    (e : Edge) (l : NodeLocation) :
  permissionsGranted w = true ->
  library env query = Fulfilled edges ->
  node_location (node e) = Some l ->
  (forall v, node_latitude l = Some v -> truthy v = false)
  \/ (forall v, node_longitude l = Some v -> truthy v = false) ->
  forall now, ~ In (convert now e) (photos (fst (load env w))).
Proof.
  intros Hp Hq Hl Hzero now Hin.
  rewrite (load_fulfilled env w edges Hp Hq) in Hin. cbn [fst photos] in Hin.
  apply filter_In in Hin. destruct Hin as [_ Hloc].
  rewrite hasLocation_convert in Hloc. unfold located in Hloc. rewrite Hl in Hloc.
  apply andb_true_iff in Hloc. destruct Hloc as [Hlat Hlon].
  destruct Hzero as [Hz | Hz].
  - destruct (node_latitude l) as [v |]; [| discriminate].
    cbn in Hlat. rewrite (Hz v eq_refl) in Hlat. discriminate.
  - destruct (node_longitude l) as [v |]; [| discriminate].
    cbn in Hlon. rewrite (Hz v eq_refl) in Hlon. discriminate.
Qed.

Lemma zero_coordinate_is_dropped_witness :
  In on_equator (three_entries ++ [on_equator])%list
  /\ ~ In (convert (lit 1700000000000%float) on_equator)
          (photos (fst (load (a_library (Fulfilled (three_entries ++ [on_equator])%list))
                             granted_screen))).
Proof.
  split; [right; right; right; left; reflexivity |].
  apply (zero_coordinate_is_dropped
           (a_library (Fulfilled (three_entries ++ [on_equator])%list)) granted_screen
           (three_entries ++ [on_equator])%list on_equator
           (mkNodeLocation (Some zero) (Some (lit 78.4867%float)))
           eq_refl eq_refl eq_refl).
  left. intros v H. inversion H. reflexivity.
Defined.

(** X22: the list is empty exactly when no entry of the library answer
    is located; the map then stays where it was, and the clock has still
    been read once per entry. *)
Theorem nothing_located (env : Env) (w : World) (edges : list Edge) :
  permissionsGranted w = true ->
  library env query = Fulfilled edges ->
  (photos (fst (load env w)) = [] <-> forall e, In e edges -> located e = false)
  /\ (photos (fst (load env w)) = [] ->
      region (fst (load env w)) = region w
      /\ ticks (fst (load env w)) = (List.length edges + ticks w)%nat).
Proof.
  intros Hp Hq. rewrite (load_fulfilled env w edges Hp Hq). cbn [fst photos region ticks].
  split.
  - split.
    + intros H e He. destruct (located e) eqn:Hloc; [| reflexivity].
      destruct (In_nth_error _ _ He) as (i & Hi).
      assert (Hin : In (convert (clock env (ticks w + i)) e)
                       (filter hasLocation (mapped env (ticks w) edges))).
      { apply filter_In. split.
        - apply mapped_In_index. exists i, e. split; [exact Hi | reflexivity].
        - rewrite hasLocation_convert. exact Hloc. }
      rewrite H in Hin. contradiction.
    + intros H. destruct (filter hasLocation (mapped env (ticks w) edges)) as [| p ps] eqn:Hf;
        [reflexivity |].
      assert (Hin : In p (filter hasLocation (mapped env (ticks w) edges)))
        by (rewrite Hf; left; reflexivity).
      apply filter_In in Hin. destruct Hin as [Hin Hloc].
      apply mapped_In_index in Hin. destruct Hin as (i & e & Hi & ->).
      rewrite hasLocation_convert in Hloc.
      rewrite (H e (nth_error_In _ _ Hi)) in Hloc. discriminate.
  - intros H. rewrite H. split; reflexivity.
Qed.

Lemma nothing_located_witness :
  region (fst (load (a_library (Fulfilled [entry "ph://2" (lit 1680000000000%float) None]))
                    granted_screen))
  = region granted_screen.
Proof.
  apply (nothing_located (a_library (Fulfilled [entry "ph://2" (lit 1680000000000%float) None]))
           granted_screen [entry "ph://2" (lit 1680000000000%float) None] eq_refl eq_refl).
  reflexivity.
Defined.

(** X23: a load replaces the list: after an earlier load, whatever it
    returned, the photos are those a first load would show (up to the time
    of rebuilding), and the selection is kept.  Loading twice from the
    same library shows the same photos and leaves the map where the first
    load put it. *)
Theorem reload_replaces (env1 env2 : Env) (w : World) (edges : list Edge) :
  permissionsGranted w = true ->
  library env2 query = Fulfilled edges ->
  let w1 := fst (load env1 w) in
  map timeless (photos (fst (load env2 w1))) = map timeless (photos (fst (load env2 w)))
  /\ selectedPhoto (fst (load env2 w1)) = selectedPhoto w
  /\ (env1 = env2 ->
      map timeless (photos (fst (load env2 w1))) = map timeless (photos w1)
      /\ region (fst (load env2 w1)) = region w1).
Proof.
  intros Hp Hq w1.
  assert (Hp1 : permissionsGranted w1 = true /\ selectedPhoto w1 = selectedPhoto w).
  { subst w1. destruct (library env1 query) as [edges1 | e] eqn:Hq1.
    - rewrite (load_fulfilled env1 w edges1 Hp Hq1). split; reflexivity.
    - rewrite (load_rejected env1 w e Hp Hq1). split; reflexivity. }
  destruct Hp1 as [Hp1 Hs1].
  rewrite (load_fulfilled env2 w1 edges Hp1 Hq), (load_fulfilled env2 w edges Hp Hq).
  cbn [fst photos selectedPhoto region].
  split; [| split].
  - rewrite !filter_mapped. reflexivity.
  - exact Hs1.
  - intros ->. subst w1. rewrite (load_fulfilled env2 w edges Hp Hq).
    cbn [fst photos region ticks]. split.
    + rewrite !filter_mapped. reflexivity.
    + unfold recentered.
      pose proof (filter_mapped env2 (List.length edges + ticks w) edges) as H2.
      pose proof (filter_mapped env2 (ticks w) edges) as H1.
      destruct (filter hasLocation (mapped env2 (List.length edges + ticks w) edges))
        as [| p ps];
        destruct (filter hasLocation (mapped env2 (ticks w) edges)) as [| q qs];
        rewrite <- H1 in H2; cbn in H2; try discriminate; [reflexivity |].
      inversion H2. unfold timeless in *. congruence.
Qed.

Lemma reload_replaces_witness :
  map timeless (photos (fst (load (a_library (Fulfilled three_entries))
                                  (fst (load (a_library (Fulfilled [on_equator]))
                                             granted_screen)))))
  = map timeless (photos (fst (load (a_library (Fulfilled three_entries)) granted_screen))).
Proof.
  apply (reload_replaces (a_library (Fulfilled [on_equator]))
           (a_library (Fulfilled three_entries)) granted_screen three_entries);
    reflexivity.
Defined.

(** Every photo of every reachable screen has truthy coordinates. *)
Lemma reachable_truthy (w : World) :
  reachable w -> forall p, In p (photos w) -> truthy_coordinates p.
Proof.
  induction 1 as [| env a w Hw IH]; intros p Hin.
  - contradiction.
  - destruct a as [granted | item | photo | | r]; cbn in Hin; try (apply IH; exact Hin).
    destruct granted; [| apply IH; exact Hin].
    set (w1 := mkWorld (photos w) (selectedPhoto w) (region w) true (ticks w) (log w)) in *.
    destruct (library env query) as [edges | e] eqn:Hq.
    + rewrite (load_fulfilled env w1 edges eq_refl Hq) in Hin. cbn in Hin.
      apply filter_In in Hin. destruct Hin as [Hin Hloc].
      destruct (mapped_In _ _ _ _ Hin) as (now & edge & _ & ->).
      rewrite hasLocation_convert in Hloc. unfold located in Hloc.
      unfold truthy_coordinates. cbn. rewrite !or_default_truthy.
      destruct (node_location (node edge)); [| discriminate].
      apply andb_true_iff in Hloc. exact Hloc.
    + rewrite (load_rejected env w1 e eq_refl Hq) in Hin. apply IH. exact Hin.
Qed.

(** X24: in every state the map screen can reach, both coordinates of
    every photo of the list are truthy numbers (not zero of either sign,
    not NaN), so no marker sits at the (0, 0) sentinel. *)
Theorem map_never_shows_sentinel (w : World) :
  reachable w ->
  forall p, In p (photos w) ->
            truthy_coordinates p
            /\ latitude (location p) <> zero /\ longitude (location p) <> zero.
Proof.
  intros Hw p Hin.
  destruct (reachable_truthy w Hw p Hin) as [Hlat Hlon].
  split; [split; assumption |].
  split; intros E; [rewrite E in Hlat | rewrite E in Hlon]; discriminate.
Qed.

Lemma map_never_shows_sentinel_witness :
  reachable (step (a_library (Fulfilled three_entries)) (PermissionsChange true) initial)
  /\ latitude (location (convert (lit 1700000000000%float)
                                 (entry "ph://1" (lit 1690000000000%float)
                                        (Some hyderabad)))) <> zero.
Proof.
  split; [apply reach_step; apply reach_initial |].
  apply (map_never_shows_sentinel
           (step (a_library (Fulfilled three_entries)) (PermissionsChange true) initial)).
  - apply reach_step. apply reach_initial.
  - left. reflexivity.
Defined.

(** X25: the map screen loads on the flag of the permission hook, which
    needs both capabilities: when the hook has collected both statuses and
    one of them, be it the camera one, is not the granted status, a load
    fulfils without querying the library or changing the screen. *)
Theorem gallery_needs_both_permissions
    (penv : PermissionHandler.Env) (gate : PermissionHandler.World)
    (cam loc : PermissionHandler.Permission) (sc sl : PermissionHandler.PermissionStatus)
    (env : Env) (w : World) :
  PermissionHandler.permissions_of (PermissionHandler.OS penv) = Some (cam, loc) ->
  PermissionHandler.final_status penv cam = Some sc ->
  PermissionHandler.final_status penv loc = Some sl ->
  sc <> PermissionHandler.GRANTED \/ sl <> PermissionHandler.GRANTED ->
  permissionsGranted w
  = PermissionHandler.permissionsGranted
      (fst (PermissionHandler.exec penv PermissionHandler.requestPermissions gate)) ->
  load env w = (w, Fulfilled tt).
Proof.
  intros HP Hc Hl Hn Hflag. apply load_denied. rewrite Hflag.
  rewrite (PermissionGate.exec_supported penv gate cam loc HP).
  destruct (PermissionGate.checkAndRequest_flag penv gate cam loc sc sl Hc Hl) as [F _].
  rewrite F.
  destruct Hn as [N | N]; apply PermissionGate.is_granted_false in N; rewrite N;
    [reflexivity | apply andb_false_r].
Qed.

Lemma gallery_needs_both_permissions_witness :
  load (a_library (Fulfilled three_entries)) initial = (initial, Fulfilled tt).
Proof.
  apply (gallery_needs_both_permissions PermissionHandler.location_denied
           PermissionHandler.initial
           PermissionHandler.ANDROID_CAMERA PermissionHandler.ANDROID_ACCESS_FINE_LOCATION
           PermissionHandler.GRANTED PermissionHandler.DENIED
           (a_library (Fulfilled three_entries)) initial);
    [reflexivity | reflexivity | reflexivity | right; discriminate | reflexivity].
Defined.

End GalleryEdges.

(* ===================================================================== *)
(** ** The photo opened on the map screen *)
(* ===================================================================== *)

Module GallerySelection.
Import GeoMapView GalleryReconstruction GalleryEdges.

Lemma visited_reachable (w : World) : visited w -> reachable w.
Proof.
  induction 1 as [| env a w Hw IH Ha]; [apply reach_initial | apply reach_step; exact IH].
Qed.

Lemma step_selected (env : Env) (a : Action) (w : World) :
  match a with
  | PressThumbnail item => selectedPhoto (step env a w) = Some item
  | PressMarker photo => selectedPhoto (step env a w) = Some photo
  | PressClose => selectedPhoto (step env a w) = None
  | _ => selectedPhoto (step env a w) = selectedPhoto w
  end.
Proof.
  destruct a as [granted | item | photo | | r]; try reflexivity.
  cbn. destruct granted; [| reflexivity].
  set (w1 := mkWorld (photos w) (selectedPhoto w) (region w) true (ticks w) (log w)).
  destruct (library env query) as [edges | e] eqn:Hq.
  - rewrite (load_fulfilled env w1 edges eq_refl Hq). reflexivity.
  - rewrite (load_rejected env w1 e eq_refl Hq). reflexivity.
Qed.

(** X26: through the actions the screen offers, the photo opened in the
    full view is always one that was in the list when it was pressed: its
    latitude and its longitude are truthy numbers, never the (0, 0)
    sentinel; a reload keeps it open. *)
Theorem opened_photo_is_located (w : World) :
  visited w ->
  forall photo, selectedPhoto w = Some photo ->
                truthy (latitude (location photo)) = true
                /\ truthy (longitude (location photo)) = true
                /\ forall env granted,
                     selectedPhoto (step env (PermissionsChange granted) w) = Some photo.
Proof.
  intros Hw.
  assert (Hsel : forall photo, selectedPhoto w = Some photo -> truthy_coordinates photo).
  { induction Hw as [| env a w Hw IH Ha]; intros photo H.
    - discriminate.
    - pose proof (step_selected env a w) as Hs.
      destruct a as [granted | item | ph | | r]; cbn [offered] in Ha.
      + rewrite Hs in H. apply IH. exact H.
      + rewrite Hs in H. inversion H; subst.
        apply (reachable_truthy w (visited_reachable w Hw)). apply Ha.
      + rewrite Hs in H. inversion H; subst.
        apply (reachable_truthy w (visited_reachable w Hw)). apply Ha.
      + rewrite Hs in H. discriminate.
      + rewrite Hs in H. apply IH. exact H. }
  intros photo H. destruct (Hsel photo H) as [Hlat Hlon].
  split; [exact Hlat | split; [exact Hlon |]].
  intros env granted. rewrite (step_selected env (PermissionsChange granted) w). exact H.
Qed.

Lemma opened_photo_is_located_witness :
  visited (step (a_library (Fulfilled three_entries))
                (PressThumbnail (convert (lit 1700000000000%float)
                                         (entry "ph://1" (lit 1690000000000%float)
                                                (Some hyderabad))))
                (step (a_library (Fulfilled three_entries)) (PermissionsChange true) initial))
  /\ truthy (latitude (location (convert (lit 1700000000000%float)
                                         (entry "ph://1" (lit 1690000000000%float)
                                                (Some hyderabad))))) = true.
Proof.
  assert (V : visited (step (a_library (Fulfilled three_entries))
                (PressThumbnail (convert (lit 1700000000000%float)
                                         (entry "ph://1" (lit 1690000000000%float)
                                                (Some hyderabad))))
                (step (a_library (Fulfilled three_entries)) (PermissionsChange true) initial))).
  { apply visit_step.
    - apply visit_step; [apply visit_initial | exact I].
    - split; [reflexivity | left; reflexivity]. }
  split; [exact V |].
  apply (opened_photo_is_located _ V). reflexivity.
Defined.

End GallerySelection.
